(** * P-FEICS evidentiary integrity core: a shallow embedding

    The development follows [SECURITY-INTEGRITY/PFEICS/main.py] (the
    metadata model, [CryptoEngine], [SignalWatermarking],
    [EvidenceContainer] and the ledger kept by [PFEICSEnhancedSystem]) and
    the custody log of
    [SECURITY-INTEGRITY/Forensic-Medical-Evidence-Security-System/forensic_evidence_system.py].

    Conventions.
    - A Python [str] is a [string]: the text, held as its UTF-8 code
      units, so that [s.encode()] is the list of its bytes.  Indexing
      and [len] on a [str] are only used by the source on ASCII text
      (bit strings, hexadecimal digests), where code units and
      characters coincide.
    - Python [bytes] are [list byte].
    - A numpy [int32] array is a list of [Z] samples living in a store
      of array objects, so that copies and in-place writes are visible.
    - A float64 coefficient of the wavelet code is a primitive binary64
      float; a reported confidence or accuracy is the rational it
      rounds.
    - An exception is a value of [exn]; fallible code returns
      [result A]. *)

From Stdlib Require Import ZArith NArith List String Ascii QArith Lia.
From Stdlib.Strings Require Import Byte.
From Stdlib Require PrimFloat FloatOps Uint63 SpecFloat.
From stdpp Require Import base option list gmap strings.
Import ListNotations.

Set Warnings "-register-all,-inexact-float".
Local Open Scope N_scope.

(** ** Exceptions and the error monad *)

Inductive exn : Type :=
| ValueError (msg : string)
| TypeError (msg : string)
| KeyError (msg : string)
| IndexError (msg : string)
| AttributeError (msg : string)
| BinasciiError (msg : string).

Inductive result (A : Type) : Type :=
| Ok (a : A)
| Raise (e : exn).
Arguments Ok {A} a.
Arguments Raise {A} e.

Definition rbind {A B} (r : result A) (k : A -> result B) : result B :=
  match r with
  | Ok a => k a
  | Raise e => Raise e
  end.

Notation "'let?' x ':=' r 'in' k" := (rbind r (fun x => k))
  (at level 10, x pattern, r at level 100, k at level 200).

(** ** Bytes *)

Module Bytes.

Definition b2n (b : byte) : N := Byte.to_N b.

Definition n2b (n : N) : byte :=
    match Byte.of_N (n mod 256) with
    | Some b => b
    | None => x00
    end.

Definition bxor (a b : byte) : byte := n2b (N.lxor (b2n a) (b2n b)).

Fixpoint xor_bytes (xs ys : list byte) : list byte :=
    match xs, ys with
    | x :: xs', y :: ys' => bxor x y :: xor_bytes xs' ys'
    | _, _ => []
    end.

  (** Big-endian rendering of [n] on [len] bytes ([long_to_bytes],
      [int.to_bytes(len, 'big')]). *)
Fixpoint be_bytes (len : nat) (n : N) : list byte :=
    match len with
    | O => []
    | S len' => be_bytes len' (n / 256) ++ [n2b n]
    end.

Definition be_value (bs : list byte) : N :=
    fold_left (fun acc b => acc * 256 + b2n b) bs 0.

  (** Splits a byte string in chunks of [n] bytes, the last one possibly
      shorter. *)
Fixpoint chunks_fuel (fuel n : nat) (bs : list byte) : list (list byte) :=
    match fuel with
    | O => []
    | S fuel' =>
        match bs with
        | [] => []
        | _ => firstn n bs :: chunks_fuel fuel' n (skipn n bs)
        end
    end.

Definition chunks (n : nat) (bs : list byte) : list (list byte) :=
    chunks_fuel (length bs) n bs.

Definition hex_digit (n : N) : ascii :=
    if n <? 10 then ascii_of_N (48 + n) else ascii_of_N (87 + n).

  (** [bytes.hex()] / [hexdigest()]: two lowercase digits per byte. *)
Fixpoint hex (bs : list byte) : string :=
    match bs with
    | [] => EmptyString
    | b :: bs' =>
        String (hex_digit (b2n b / 16))
          (String (hex_digit (b2n b mod 16)) (hex bs'))
    end.

Fixpoint bytes_eqb (a b : list byte) : bool :=
    match a, b with
    | [], [] => true
    | x :: a', y :: b' => Byte.eqb x y && bytes_eqb a' b'
    | _, _ => false
    end.

Definition encode (s : string) : list byte := list_byte_of_string s.
Definition decode (bs : list byte) : string := string_of_list_byte bs.

End Bytes.

(** ** SHA-2 ([hashlib.sha512], [hashlib.sha256]) *)

Module SHA2.
Import Bytes.

Section Generic.
    (** Word size in bits, block size in bytes, size of the length
        field in bytes, the rotation amounts and the constants. *)
Variable wbits : N.
Variable block_len : nat.
Variable len_field : nat.
Variables (S0a S0b S0c S1a S1b S1c : N).
Variables (s0a s0b s0c s1a s1b s1c : N).
Variable K : list N.
Variable H0 : list N.

Definition wmod : N := 2 ^ wbits.
Definition wadd (a b : N) : N := (a + b) mod wmod.
Definition rotr (n x : N) : N :=
      N.lor (N.shiftr x n) (N.shiftl x (wbits - n) mod wmod).
Definition wnot (x : N) : N := N.lxor x (wmod - 1).

Definition Ch (e f g : N) : N := N.lxor (N.land e f) (N.land (wnot e) g).
Definition Maj (a b c : N) : N :=
      N.lxor (N.lxor (N.land a b) (N.land a c)) (N.land b c).
Definition Sigma0 (a : N) : N := N.lxor (N.lxor (rotr S0a a) (rotr S0b a)) (rotr S0c a).
Definition Sigma1 (e : N) : N := N.lxor (N.lxor (rotr S1a e) (rotr S1b e)) (rotr S1c e).
Definition sigma0 (x : N) : N := N.lxor (N.lxor (rotr s0a x) (rotr s0b x)) (N.shiftr x s0c).
Definition sigma1 (x : N) : N := N.lxor (N.lxor (rotr s1a x) (rotr s1b x)) (N.shiftr x s1c).

Definition pad (msg : list byte) : list byte :=
      let l := length msg in
      let used := ((l + 1 + len_field) mod block_len)%nat in
      let zeros := ((block_len - used) mod block_len)%nat in
      msg ++ [x80] ++ repeat x00 zeros ++ be_bytes len_field (8 * N.of_nat l).

Definition words_of_block (blk : list byte) : list N :=
      map be_value (chunks (N.to_nat wbits / 8) blk).

    (** The message schedule, most recent word first. *)
Fixpoint schedule (n : nat) (recent : list N) : list N :=
      match n with
      | O => recent
      | S n' =>
          let w := wadd (wadd (sigma1 (nth 1 recent 0)) (nth 6 recent 0))
                        (wadd (sigma0 (nth 14 recent 0)) (nth 15 recent 0)) in
          schedule n' (w :: recent)
      end.

Definition state : Type := N * N * N * N * N * N * N * N.

Definition round (st : state) (kw : N * N) : state :=
      let '(a, b, c, d, e, f, g, h) := st in
      let '(k, w) := kw in
      let t1 := wadd (wadd (wadd h (Sigma1 e)) (wadd (Ch e f g) k)) w in
      let t2 := wadd (Sigma0 a) (Maj a b c) in
      (wadd t1 t2, a, b, c, wadd d t1, e, f, g).

Definition compress (st : state) (blk : list byte) : state :=
      let w16 := words_of_block blk in
      let ws := rev (schedule (length K - 16) (rev w16)) in
      let '(a, b, c, d, e, f, g, h) := st in
      let '(a', b', c', d', e', f', g', h') :=
        fold_left round (combine K ws) st in
      (wadd a a', wadd b b', wadd c c', wadd d d',
       wadd e e', wadd f f', wadd g g', wadd h h').

Definition initial_state : state :=
      (nth 0 H0 0, nth 1 H0 0, nth 2 H0 0, nth 3 H0 0,
       nth 4 H0 0, nth 5 H0 0, nth 6 H0 0, nth 7 H0 0).

Definition digest_words (msg : list byte) : list N :=
      let '(a, b, c, d, e, f, g, h) :=
        fold_left compress (chunks block_len (pad msg)) initial_state in
      [a; b; c; d; e; f; g; h].

Definition digest (msg : list byte) : list byte :=
      flat_map (be_bytes (N.to_nat wbits / 8)) (digest_words msg).
End Generic.

  (** The constants of the standard: the first bits of the fractional
      parts of the cube roots (round constants) and of the square roots
      (initial state) of the first primes. *)
Definition is_prime (n : N) : bool :=
    (2 <=? n)
    && forallb (fun d => negb (n mod N.of_nat d =? 0)) (seq 2 (N.to_nat n - 2)).

Definition first_primes (k : nat) : list N :=
    firstn k (List.filter is_prime (map N.of_nat (seq 0 420))).

  (** The integer part of the [r]-th root of [x], by bisection. *)
Fixpoint iroot_loop (fuel : nat) (r x lo hi : N) : N :=
    match fuel with
    | O => lo
    | S fuel' =>
        if lo <? hi then
          let m := (lo + hi + 1) / 2 in
          if m ^ r <=? x then iroot_loop fuel' r x m hi
          else iroot_loop fuel' r x lo (m - 1)
        else lo
    end.

Definition iroot (r x : N) : N :=
    iroot_loop (S (N.to_nat (N.size x))) r x 0 (2 ^ (N.size x / r + 1)).

Definition frac_root (r wbits : N) (p : N) : N :=
    iroot r (p * 2 ^ (r * wbits)) mod 2 ^ wbits.

Definition K512 : list N := Eval vm_compute in map (frac_root 3 64) (first_primes 80).
Definition H512 : list N := Eval vm_compute in map (frac_root 2 64) (first_primes 8).
Definition K256 : list N := Eval vm_compute in map (frac_root 3 32) (first_primes 64).
Definition H256 : list N := Eval vm_compute in map (frac_root 2 32) (first_primes 8).

Definition sha512 (msg : list byte) : list byte :=
    digest 64 128 16 28 34 39 14 18 41 1 8 7 19 61 6 K512 H512 msg.

Definition sha256 (msg : list byte) : list byte :=
    digest 32 64 8 2 13 22 6 11 25 7 18 3 17 19 10 K256 H256 msg.

Definition sha512_hexdigest (msg : list byte) : string := hex (sha512 msg).
Definition sha256_hexdigest (msg : list byte) : string := hex (sha256 msg).

End SHA2.

(** ** Text formatting: [str(int)], string ordering, joins *)

Module PyStr.

Definition chr (n : N) : ascii := ascii_of_N n.
Definition ord (c : ascii) : N := N_of_ascii c.

Definition dquote : string := String (chr 34) EmptyString.

Fixpoint dec_digits (fuel : nat) (n : N) (acc : string) : string :=
    match fuel with
    | O => acc
    | S fuel' =>
        let acc' := String (chr (48 + n mod 10)) acc in
        if n / 10 =? 0 then acc' else dec_digits fuel' (n / 10) acc'
    end.

Definition str_of_N (n : N) : string :=
    dec_digits (S (N.to_nat (N.size n))) n EmptyString.

  (** [str(z)] and the [f"{z}"] of an [int]. *)
Definition str_of_Z (z : Z) : string :=
    if (z <? 0)%Z then String (chr 45) (str_of_N (Z.abs_N z))
    else str_of_N (Z.to_N z).

Fixpoint join (sep : string) (parts : list string) : string :=
    match parts with
    | [] => EmptyString
    | [p] => p
    | p :: rest => p ++ sep ++ join sep rest
    end.

  (** [s * n] *)
Fixpoint repeat_str (s : string) (n : nat) : string :=
    match n with
    | O => EmptyString
    | S n' => s ++ repeat_str s n'
    end.

  (** [s[:n]] *)
Fixpoint str_take (n : nat) (s : string) : string :=
    match n, s with
    | S n', String c r => String c (str_take n' r)
    | _, _ => EmptyString
    end.

  (** Python compares strings by code point, which is the order of
      their UTF-8 code units. *)
Definition str_lt (a b : string) : bool := String.ltb a b.

End PyStr.

(** ** JSON ([json.dumps]) and [json_serialize_safe] *)

Module Json.
Import PyStr.

  (** The objects [json.dumps] accepts.  A float is carried by the text
      [json.dumps] writes for it ([float.__repr__]). *)
Inductive json : Type :=
  | JNull
  | JBool (b : bool)
  | JInt (z : Z)
  | JFloat (repr : string)
  | JStr (s : string)
  | JList (items : list json)
  | JDict (items : list (string * json)).

  (** A Python [dict] with [str] keys: insertion-ordered, keys unique. *)
Abbreviation pydict := (list (string * json)).

Fixpoint dict_get {A} (k : string) (d : list (string * A)) : option A :=
    match d with
    | [] => None
    | (k', v) :: r => if String.eqb k k' then Some v else dict_get k r
    end.

  (** [d[k] = v]: replaces the value of an existing key where it
      stands, appends a new key. *)
Fixpoint dict_set {A} (k : string) (v : A) (d : list (string * A)) : list (string * A) :=
    match d with
    | [] => [(k, v)]
    | (k', v') :: r =>
        if String.eqb k k' then (k, v) :: r else (k', v') :: dict_set k v r
    end.

  (** The values the callers put in event data, numpy scalars and
      arrays included. *)
Inductive pyobj : Type :=
  | PNone
  | PBool (b : bool)
  | PInt (z : Z)
  | PFloat (repr : string)
  | PStr (s : string)
  | PList (items : list pyobj)
  | PTuple (items : list pyobj)
  | PDict (items : list (string * pyobj))
  | NpInteger (z : Z)
  | NpFloating (repr : string)
  | NpBool (b : bool)
  | NdArray (samples : list Z).

  (** [repr(float(z))] for an integer below 10^16 in magnitude (every
      int32 and every count the callers log). *)
Definition float_repr_of_int (z : Z) : string := str_of_Z z ++ ".0".

Fixpoint json_serialize_safe (obj : pyobj) : json :=
    match obj with
    | NpInteger z => JFloat (float_repr_of_int z)
    | NpFloating r => JFloat r
    | NdArray l => JList (map JInt l)
    | NpBool b => JBool b
    | PBool b => JBool b
    | PDict d =>
        JDict ((fix go (d : list (string * pyobj)) : list (string * json) :=
                  match d with
                  | [] => []
                  | (k, v) :: r => (k, json_serialize_safe v) :: go r
                  end) d)
    | PList l =>
        JList ((fix go (l : list pyobj) : list json :=
                  match l with
                  | [] => []
                  | x :: r => json_serialize_safe x :: go r
                  end) l)
    | PTuple l =>
        JList ((fix go (l : list pyobj) : list json :=
                  match l with
                  | [] => []
                  | x :: r => json_serialize_safe x :: go r
                  end) l)
    | PNone => JNull
    | PInt z => JInt z
    | PFloat r => JFloat r
    | PStr s => JStr s
    end.

Definition hex4 (n : N) : string :=
    String (Bytes.hex_digit (n / 4096 mod 16))
      (String (Bytes.hex_digit (n / 256 mod 16))
         (String (Bytes.hex_digit (n / 16 mod 16))
            (String (Bytes.hex_digit (n mod 16)) EmptyString))).

Definition esc_unit (n : N) : string := "\u" ++ hex4 n.

Definition esc_cp (cp : N) : string :=
    if cp <? 0x10000 then esc_unit cp
    else
      let v := cp - 0x10000 in
      esc_unit (0xd800 + v / 1024) ++ esc_unit (0xdc00 + v mod 1024).

Definition esc_ascii (n : N) : string :=
    if n =? 34 then "\" ++ dquote
    else if n =? 92 then "\\"
    else if n =? 10 then "\n"
    else if n =? 13 then "\r"
    else if n =? 9 then "\t"
    else if n =? 8 then "\b"
    else if n =? 12 then "\f"
    else if (n <? 32) || (n =? 127) then esc_unit n
    else String (chr n) EmptyString.

Definition cont (c : ascii) : N := ord c - 0x80.

  (** [ensure_ascii=True]: everything outside space..tilde is escaped;
      a character beyond the BMP becomes a surrogate pair. *)
Fixpoint escape (s : string) : string :=
    match s with
    | EmptyString => EmptyString
    | String c r =>
        let n := ord c in
        if n <? 0x80 then esc_ascii n ++ escape r
        else if n <? 0xE0 then
          match r with
          | String c2 r2 => esc_cp ((n - 0xC0) * 64 + cont c2) ++ escape r2
          | _ => esc_unit n
          end
        else if n <? 0xF0 then
          match r with
          | String c2 (String c3 r3) =>
              esc_cp ((n - 0xE0) * 4096 + cont c2 * 64 + cont c3) ++ escape r3
          | _ => esc_unit n
          end
        else
          match r with
          | String c2 (String c3 (String c4 r4)) =>
              esc_cp ((n - 0xF0) * 262144 + cont c2 * 4096 + cont c3 * 64 + cont c4)
                ++ escape r4
          | _ => esc_unit n
          end
    end.

Definition quote (s : string) : string := dquote ++ escape s ++ dquote.

Fixpoint insert_item (kv : string * string) (l : list (string * string)) :=
    match l with
    | [] => [kv]
    | kv' :: r => if str_lt (fst kv) (fst kv') then kv :: l else kv' :: insert_item kv r
    end.

  (** [sorted(d.items())], on a dict: by key. *)
Definition sort_items (l : list (string * string)) : list (string * string) :=
    fold_right insert_item [] l.

Definition render_item (kv : string * string) : string :=
    quote (fst kv) ++ ": " ++ snd kv.

  (** [json.dumps(obj, sort_keys=True)] with the default separators. *)
Fixpoint dumps_sorted (j : json) : string :=
    match j with
    | JNull => "null"
    | JBool true => "true"
    | JBool false => "false"
    | JInt z => str_of_Z z
    | JFloat r => r
    | JStr s => quote s
    | JList l =>
        "[" ++ join ", " ((fix go (l : list json) : list string :=
                             match l with
                             | [] => []
                             | x :: r => dumps_sorted x :: go r
                             end) l) ++ "]"
    | JDict d =>
        "{" ++ join ", " (map render_item (sort_items
                 ((fix go (d : list (string * json)) : list (string * string) :=
                     match d with
                     | [] => []
                     | (k, v) :: r => (k, dumps_sorted v) :: go r
                     end) d))) ++ "}"
    end.

End Json.

(** ** Base64 ([base64.b64encode], [base64.b64decode]) *)

Module Base64.
Import Bytes.

Definition pad_char : byte := x3d.

  (** The standard alphabet: A-Z a-z 0-9 + / *)
Definition enc_char (v : N) : byte :=
    if v <? 26 then n2b (65 + v)
    else if v <? 52 then n2b (97 + (v - 26))
    else if v <? 62 then n2b (48 + (v - 52))
    else if v =? 62 then x2b
    else x2f.

  (** [table_a2b_base64]: the value of a character of the alphabet. *)
Definition dec_char (c : byte) : option N :=
    let n := b2n c in
    if (65 <=? n) && (n <=? 90) then Some (n - 65)
    else if (97 <=? n) && (n <=? 122) then Some (n - 97 + 26)
    else if (48 <=? n) && (n <=? 57) then Some (n - 48 + 52)
    else if n =? 43 then Some 62
    else if n =? 47 then Some 63
    else None.

Fixpoint b64encode (bs : list byte) : list byte :=
    match bs with
    | [] => []
    | [a] =>
        [enc_char (N.shiftr (b2n a) 2);
         enc_char (N.shiftl (N.land (b2n a) 3) 4);
         pad_char; pad_char]
    | [a; b] =>
        [enc_char (N.shiftr (b2n a) 2);
         enc_char (N.lor (N.shiftl (N.land (b2n a) 3) 4) (N.shiftr (b2n b) 4));
         enc_char (N.shiftl (N.land (b2n b) 15) 2);
         pad_char]
    | a :: b :: c :: r =>
        enc_char (N.shiftr (b2n a) 2)
        :: enc_char (N.lor (N.shiftl (N.land (b2n a) 3) 4) (N.shiftr (b2n b) 4))
        :: enc_char (N.lor (N.shiftl (N.land (b2n b) 15) 2) (N.shiftr (b2n c) 6))
        :: enc_char (N.land (b2n c) 63)
        :: b64encode r
    end.

  (** [binascii.a2b_base64] without [strict_mode], as [b64decode] calls
      it: characters outside the alphabet are skipped, a pad sequence
      that completes a quad ends the parse, and a quad left open at the
      end of the input is an error.  [quad_pos] is the position in the
      current quad, [leftchar] the bits carried over and [pads] the pad
      characters seen in a row. *)
Fixpoint a2b_base64 (s : list byte) (quad_pos leftchar pads : N)
    : result (list byte) :=
    match s with
    | [] =>
        if quad_pos =? 0 then Ok []
        else if quad_pos =? 1 then
          Raise (BinasciiError "Invalid base64-encoded string: number of data characters cannot be 1 more than a multiple of 4")
        else Raise (BinasciiError "Incorrect padding")
    | c :: r =>
        if b2n c =? b2n pad_char then
          if 2 <=? quad_pos then
            if 4 <=? quad_pos + (pads + 1) then Ok []
            else a2b_base64 r quad_pos leftchar (pads + 1)
          else a2b_base64 r quad_pos leftchar pads
        else
          match dec_char c with
          | None => a2b_base64 r quad_pos leftchar pads
          | Some v =>
              if quad_pos =? 0 then a2b_base64 r 1 v 0
              else if quad_pos =? 1 then
                let? rest := a2b_base64 r 2 (N.land v 15) 0 in
                Ok (n2b (N.lor (N.shiftl leftchar 2) (N.shiftr v 4)) :: rest)
              else if quad_pos =? 2 then
                let? rest := a2b_base64 r 3 (N.land v 3) 0 in
                Ok (n2b (N.lor (N.shiftl leftchar 4) (N.shiftr v 2)) :: rest)
              else
                let? rest := a2b_base64 r 0 0 0 in
                Ok (n2b (N.lor (N.shiftl leftchar 6) v) :: rest)
          end
    end.

Definition is_ascii (s : string) : bool :=
    forallb (fun b => b2n b <? 128) (encode s).

  (** [base64.b64decode(s)] on a [str]. *)
Definition b64decode (s : string) : result (list byte) :=
    if is_ascii s then a2b_base64 (encode s) 0 0 0
    else Raise (ValueError "string argument should contain only ASCII characters").

  (** [base64.b64encode(bs).decode()] *)
Definition b64encode_str (bs : list byte) : string := decode (b64encode bs).

End Base64.

(** *** Facts about one group of three bytes, as checks over all bytes *)

Module Base64Spec.
Import Bytes Base64.

Definition sextet_ok (v : N) : bool :=
    match dec_char (enc_char v) with
    | Some v' => (v' =? v) && negb (b2n (enc_char v) =? b2n pad_char)
    | None => false
    end.

  (** The four sextets of a group of three bytes, by their values. *)
Definition s1 (a : N) : N := N.shiftr a 2.
Definition s2 (a hb : N) : N := N.lor (N.shiftl (N.land a 3) 4) hb.
Definition s3 (b hc : N) : N := N.lor (N.shiftl (N.land b 15) 2) hc.
Definition s4 (c : N) : N := N.land c 63.

Definition group_ok (a : N) : bool :=
    (s1 a <? 64) && (s4 a <? 64) && (N.shiftr a 4 <? 16) && (N.shiftr a 6 <? 4)
    && (N.lor (N.shiftl (N.shiftr a 6) 6) (s4 a) =? a)
    && forallb (fun h =>
         (s2 a h <? 64)
         && (N.lor (N.shiftl (s1 a) 2) (N.shiftr (s2 a h) 4) =? a)
         && (N.land (s2 a h) 15 =? h))
         (map N.of_nat (seq 0 16))
    && forallb (fun h =>
         (s3 a h <? 64)
         && (N.land (s3 a h) 3 =? h)
         && (N.lor (N.shiftl (N.shiftr a 4) 4) (N.shiftr (s3 a h) 2) =? a))
         (map N.of_nat (seq 0 4)).

Record group_facts (a : N) : Prop := {
    gf_s1 : s1 a < 64;
    gf_s4 : s4 a < 64;
    gf_hi4 : N.shiftr a 4 < 16;
    gf_hi2 : N.shiftr a 6 < 4;
    gf_out3 : N.lor (N.shiftl (N.shiftr a 6) 6) (s4 a) = a;
    gf_s2 : forall h, h < 16 ->
      s2 a h < 64
      /\ N.lor (N.shiftl (s1 a) 2) (N.shiftr (s2 a h) 4) = a
      /\ N.land (s2 a h) 15 = h;
    gf_s3 : forall h, h < 4 ->
      s3 a h < 64
      /\ N.land (s3 a h) 3 = h
      /\ N.lor (N.shiftl (N.shiftr a 4) 4) (N.shiftr (s3 a h) 2) = a
  }.

End Base64Spec.

(** ** AES ([Crypto.Cipher.AES], FIPS 197) *)

Module AES.
Import Bytes.

Definition sbox : list N :=
    [
      0x63; 0x7c; 0x77; 0x7b; 0xf2; 0x6b; 0x6f; 0xc5; 0x30; 0x01; 0x67; 0x2b; 0xfe; 0xd7; 0xab; 0x76;
      0xca; 0x82; 0xc9; 0x7d; 0xfa; 0x59; 0x47; 0xf0; 0xad; 0xd4; 0xa2; 0xaf; 0x9c; 0xa4; 0x72; 0xc0;
      0xb7; 0xfd; 0x93; 0x26; 0x36; 0x3f; 0xf7; 0xcc; 0x34; 0xa5; 0xe5; 0xf1; 0x71; 0xd8; 0x31; 0x15;
      0x04; 0xc7; 0x23; 0xc3; 0x18; 0x96; 0x05; 0x9a; 0x07; 0x12; 0x80; 0xe2; 0xeb; 0x27; 0xb2; 0x75;
      0x09; 0x83; 0x2c; 0x1a; 0x1b; 0x6e; 0x5a; 0xa0; 0x52; 0x3b; 0xd6; 0xb3; 0x29; 0xe3; 0x2f; 0x84;
      0x53; 0xd1; 0x00; 0xed; 0x20; 0xfc; 0xb1; 0x5b; 0x6a; 0xcb; 0xbe; 0x39; 0x4a; 0x4c; 0x58; 0xcf;
      0xd0; 0xef; 0xaa; 0xfb; 0x43; 0x4d; 0x33; 0x85; 0x45; 0xf9; 0x02; 0x7f; 0x50; 0x3c; 0x9f; 0xa8;
      0x51; 0xa3; 0x40; 0x8f; 0x92; 0x9d; 0x38; 0xf5; 0xbc; 0xb6; 0xda; 0x21; 0x10; 0xff; 0xf3; 0xd2;
      0xcd; 0x0c; 0x13; 0xec; 0x5f; 0x97; 0x44; 0x17; 0xc4; 0xa7; 0x7e; 0x3d; 0x64; 0x5d; 0x19; 0x73;
      0x60; 0x81; 0x4f; 0xdc; 0x22; 0x2a; 0x90; 0x88; 0x46; 0xee; 0xb8; 0x14; 0xde; 0x5e; 0x0b; 0xdb;
      0xe0; 0x32; 0x3a; 0x0a; 0x49; 0x06; 0x24; 0x5c; 0xc2; 0xd3; 0xac; 0x62; 0x91; 0x95; 0xe4; 0x79;
      0xe7; 0xc8; 0x37; 0x6d; 0x8d; 0xd5; 0x4e; 0xa9; 0x6c; 0x56; 0xf4; 0xea; 0x65; 0x7a; 0xae; 0x08;
      0xba; 0x78; 0x25; 0x2e; 0x1c; 0xa6; 0xb4; 0xc6; 0xe8; 0xdd; 0x74; 0x1f; 0x4b; 0xbd; 0x8b; 0x8a;
      0x70; 0x3e; 0xb5; 0x66; 0x48; 0x03; 0xf6; 0x0e; 0x61; 0x35; 0x57; 0xb9; 0x86; 0xc1; 0x1d; 0x9e;
      0xe1; 0xf8; 0x98; 0x11; 0x69; 0xd9; 0x8e; 0x94; 0x9b; 0x1e; 0x87; 0xe9; 0xce; 0x55; 0x28; 0xdf;
      0x8c; 0xa1; 0x89; 0x0d; 0xbf; 0xe6; 0x42; 0x68; 0x41; 0x99; 0x2d; 0x0f; 0xb0; 0x54; 0xbb; 0x16 ].

Definition sub (n : N) : N := nth (N.to_nat n) sbox 0.

  (** Multiplication by x in GF(2^8) modulo x^8 + x^4 + x^3 + x + 1. *)
Definition xtime (a : N) : N :=
    let d := a * 2 in
    if 256 <=? d then N.lxor (d - 256) 0x1b else d.

Definition mul2 (a : N) : N := xtime a.
Definition mul3 (a : N) : N := N.lxor (xtime a) a.

Definition at_ (st : list N) (i : nat) : N := nth i st 0.

Definition add_round_key (st rk : list N) : list N :=
    map (fun i => N.lxor (at_ st i) (at_ rk i)) (seq 0 16).

Definition sub_bytes (st : list N) : list N := map sub st.

  (** The state is held column by column: byte [r + 4c] is row [r],
      column [c].  Row [r] is rotated left by [r]. *)
Definition shift_rows (st : list N) : list N :=
    map (fun i => at_ st (i mod 4 + 4 * ((i / 4 + i mod 4) mod 4)))%nat (seq 0 16).

Definition mix_column (a0 a1 a2 a3 : N) : list N :=
    [ N.lxor (N.lxor (mul2 a0) (mul3 a1)) (N.lxor a2 a3);
      N.lxor (N.lxor a0 (mul2 a1)) (N.lxor (mul3 a2) a3);
      N.lxor (N.lxor a0 a1) (N.lxor (mul2 a2) (mul3 a3));
      N.lxor (N.lxor (mul3 a0) a1) (N.lxor a2 (mul2 a3)) ].

Definition mix_columns (st : list N) : list N :=
    flat_map (fun c => mix_column (at_ st (4 * c)) (at_ st (4 * c + 1))
                                  (at_ st (4 * c + 2)) (at_ st (4 * c + 3)))%nat
             (seq 0 4).

Definition rot_word (w : list N) : list N :=
    [at_ w 1; at_ w 2; at_ w 3; at_ w 0].
Definition sub_word (w : list N) : list N := map sub w.
Definition xor_word (a b : list N) : list N :=
    map (fun i => N.lxor (at_ a i) (at_ b i)) (seq 0 4).

Fixpoint rcon (j : nat) : N :=
    match j with
    | O => 0
    | S O => 1
    | S j' => xtime (rcon j')
    end.

  (** Key expansion.  [ws] holds the words computed so far, the most
      recent first; [i] is the index of the next word. *)
Fixpoint expand (n i Nk : nat) (ws : list (list N)) : list (list N) :=
    match n with
    | O => ws
    | S n' =>
        let temp := nth 0 ws [] in
        let temp' :=
          if (i mod Nk =? 0)%nat then
            xor_word (sub_word (rot_word temp)) [rcon (i / Nk); 0; 0; 0]
          else if ((6 <? Nk) && (i mod Nk =? 4))%nat then sub_word temp
          else temp in
        expand n' (S i) Nk (xor_word (nth (Nk - 1) ws []) temp' :: ws)
    end.

Definition key_words (key : list byte) : list (list N) :=
    map (map b2n) (chunks 4 key).

  (** The round keys of a 16, 24 or 32 byte key, one list of 16 bytes
      per round. *)
Definition round_keys (key : list byte) : list (list N) :=
    let Nk := (length key / 4)%nat in
    let total := (4 * (Nk + 7))%nat in
    let ws := rev (expand (total - Nk) Nk Nk (rev (key_words key))) in
    map (fun r => flat_map (fun c => nth (4 * r + c) ws [])%nat (seq 0 4))
        (seq 0 (Nk + 7)).

Definition full_round (st rk : list N) : list N :=
    add_round_key (mix_columns (shift_rows (sub_bytes st))) rk.

Definition final_round (st rk : list N) : list N :=
    add_round_key (shift_rows (sub_bytes st)) rk.

Definition encrypt_block (rks : list (list N)) (blk : list byte) : list byte :=
    let nr := (length rks - 1)%nat in
    let st0 := add_round_key (map b2n blk) (nth 0 rks []) in
    let st := fold_left full_round (firstn (nr - 1) (skipn 1 rks)) st0 in
    map n2b (final_round st (nth nr rks [])).

Definition valid_key_length (key : list byte) : bool :=
    let n := length key in
    ((n =? 16) || (n =? 24) || (n =? 32))%nat.

End AES.

(** ** GCM ([AES.MODE_GCM], NIST SP 800-38D)

    The mode is written over the block function [E] of the keyed
    cipher.  The library accepts messages up to 2^36 bytes; the 32-bit
    block counter below wraps as the standard's [inc32] does. *)

Module GCM.
Import Bytes.

  (** Multiplication in GF(2^128), on blocks read as big-endian
      integers: bit 0 of the standard is the most significant bit. *)
Definition R : N := N.shiftl 0xe1 120.

Fixpoint gf_mul_fuel (n : nat) (x v z : N) : N :=
    match n with
    | O => z
    | S n' =>
        let z' := if N.testbit x (N.of_nat n') then N.lxor z v else z in
        let v' := if N.odd v then N.lxor (N.shiftr v 1) R else N.shiftr v 1 in
        gf_mul_fuel n' x v' z'
    end.

Definition gf_mul (x y : N) : N := gf_mul_fuel 128 x y 0.

Definition pad16 (bs : list byte) : list byte :=
    bs ++ repeat x00 ((16 - length bs mod 16) mod 16).

  (** [GHASH_H] of a byte string whose length is a multiple of 16. *)
Definition ghash (H : N) (data : list byte) : N :=
    fold_left (fun y blk => gf_mul (N.lxor y (be_value blk)) H) (chunks 16 data) 0.

Section Mode.
Variable E : list byte -> list byte.

Definition hash_subkey : N := be_value (E (repeat x00 16)).

    (** The pre-counter block [J0]. *)
Definition j0 (nonce : list byte) : list byte :=
      if (length nonce =? 12)%nat then nonce ++ [x00; x00; x00; x01]
      else
        be_bytes 16 (ghash hash_subkey
          (pad16 nonce ++ repeat x00 8 ++ be_bytes 8 (8 * N.of_nat (length nonce)))).

    (** Counter block number [i] after [J0]: the last 32 bits count
        modulo 2^32. *)
Definition ctr_block (J0 : list byte) (i : N) : list byte :=
      firstn 12 J0 ++ be_bytes 4 ((be_value (skipn 12 J0) + i) mod 2 ^ 32).

Definition keystream_byte (J0 : list byte) (i : nat) : byte :=
      nth (i mod 16) (E (ctr_block J0 (1 + N.of_nat (i / 16)))) x00.

    (** Counter mode from [inc32(J0)]: byte [i] of the data is xored
        with byte [i mod 16] of the encryption of counter block
        [1 + i / 16]. *)
Fixpoint ctr_from (J0 : list byte) (i : nat) (data : list byte) : list byte :=
      match data with
      | [] => []
      | b :: r => bxor b (keystream_byte J0 i) :: ctr_from J0 (S i) r
      end.

Definition ctr_crypt (J0 : list byte) (data : list byte) : list byte :=
      ctr_from J0 0 data.

Definition mac (J0 aad ct : list byte) : list byte :=
      let s := ghash hash_subkey
                 (pad16 aad ++ pad16 ct
                  ++ be_bytes 8 (8 * N.of_nat (length aad))
                  ++ be_bytes 8 (8 * N.of_nat (length ct))) in
      xor_bytes (be_bytes 16 s) (E J0).

    (** [cipher.update(aad); cipher.encrypt_and_digest(pt)] *)
Definition encrypt_and_digest (nonce aad pt : list byte)
      : list byte * list byte :=
      let J0 := j0 nonce in
      let ct := ctr_crypt J0 pt in
      (ct, mac J0 aad ct).

    (** [cipher.update(aad); cipher.decrypt_and_verify(ct, tag)]: the
        library raises [ValueError("MAC check failed")] when the tag it
        computes differs from the one received. *)
Definition decrypt_and_verify (nonce aad ct tag : list byte)
      : result (list byte) :=
      let J0 := j0 nonce in
      let pt := ctr_crypt J0 ct in
      if bytes_eqb (mac J0 aad ct) tag then Ok pt
      else Raise (ValueError "MAC check failed").
End Mode.

End GCM.

(** ** CryptoEngine *)

(** The class name of an exception, as [type(e).__name__] gives it. *)
Definition exn_name (e : exn) : string :=
  match e with
  | ValueError _ => "ValueError"
  | TypeError _ => "TypeError"
  | KeyError _ => "KeyError"
  | IndexError _ => "IndexError"
  | AttributeError _ => "AttributeError"
  | BinasciiError _ => "Error"
  end.

(** [except ValueError] also catches [binascii.Error], a subclass. *)
Definition is_ValueError (e : exn) : bool :=
  match e with
  | ValueError _ | BinasciiError _ => true
  | _ => false
  end.

(** The operating system's entropy, read by [get_random_bytes]: a tape
    of bytes and the position of the next unread one. *)
Record Entropy : Type := { tape : nat -> byte; pos : nat }.

Definition get_random_bytes (n : nat) (rng : Entropy) : list byte * Entropy :=
  (map (fun i => tape rng (pos rng + i)%nat) (seq 0 n),
   {| tape := tape rng; pos := (pos rng + n)%nat |}).

Module CryptoEngine.
Import Bytes Base64.

  (** The dictionary [encrypt_data_gcm] returns and [decrypt_data_gcm]
      reads. *)
Record EncryptedBundle : Type := {
    ciphertext : string;
    nonce : string;
    tag : string;
    key : string;
    metadata_hash : string
  }.

Definition with_ciphertext (b : EncryptedBundle) (c : string) : EncryptedBundle :=
    {| ciphertext := c; nonce := nonce b; tag := tag b; key := key b;
       metadata_hash := metadata_hash b |}.

Definition aes_block (k : list byte) : list byte -> list byte :=
    AES.encrypt_block (AES.round_keys k).

  (** [AES.new(key, AES.MODE_GCM, nonce=nonce)]: the block function of
      the keyed cipher, or the library's [ValueError]. *)
Definition AES_new_gcm (k n : list byte) : result (list byte -> list byte) :=
    match n with
    | [] => Raise (ValueError "Nonce cannot be empty")
    | _ =>
        if AES.valid_key_length k then Ok (aes_block k)
        else Raise (ValueError "Incorrect AES key length")
    end.

Definition encrypt_data_gcm (plaintext : list byte) (metadata : string)
      (rng : Entropy) : EncryptedBundle * Entropy :=
    let '(k, rng1) := get_random_bytes 32 rng in
    (* AES.new draws a 16-byte nonce when none is given *)
    let '(n, rng2) := get_random_bytes 16 rng1 in
    let '(ct, t) :=
      GCM.encrypt_and_digest (aes_block k) n (encode metadata) plaintext in
    ({| ciphertext := b64encode_str ct;
        nonce := b64encode_str n;
        tag := b64encode_str t;
        key := b64encode_str k;
        metadata_hash := SHA2.sha256_hexdigest (encode metadata) |},
     rng2).

Definition decryption_failed : exn :=
    ValueError "Decryption failed: Data tampered or metadata mismatch".

Definition decrypt_data_gcm (encrypted_data : EncryptedBundle)
      (metadata : string) : result (list byte) :=
    let? k := b64decode (key encrypted_data) in
    let? n := b64decode (nonce encrypted_data) in
    let? t := b64decode (tag encrypted_data) in
    let? ct := b64decode (ciphertext encrypted_data) in
    let? E := AES_new_gcm k n in
    match GCM.decrypt_and_verify E n (encode metadata) ct t with
    | Ok plaintext => Ok plaintext
    | Raise e => if is_ValueError e then Raise decryption_failed else Raise e
    end.

Section Signatures.
    (** RSA keys and the PKCS#1 v1.5 primitive of the library
        ([pkcs1_15.new(key).sign], [.verify]) over a SHA-256 digest. *)
Variable RsaKey : Type.
Variable pkcs1_15_sign : RsaKey -> list byte -> list byte.
Variable pkcs1_15_verify : RsaKey -> list byte -> list byte -> bool.

Definition sign_data (data : list byte) (private_key : RsaKey) : string :=
      b64encode_str (pkcs1_15_sign private_key (SHA2.sha256 data)).

Definition verify_signature (data : list byte) (signature : string)
        (public_key : RsaKey) : bool :=
      match b64decode signature with
      | Ok sig_bytes => pkcs1_15_verify public_key (SHA2.sha256 data) sig_bytes
      | Raise _ => false
      end.
End Signatures.

Definition fails_with (name : string) (r : result (list byte)) : Prop :=
  exists e, r = Raise e /\ exn_name e = name.

End CryptoEngine.


(** ** A worked encryption, and a tampered copy of it *)

Module Worked.
Import Bytes CryptoEngine.

Definition rng0 : Entropy :=
  {| tape := fun i => n2b (N.of_nat (37 * i + 11)); pos := 0 |}.

Definition plaintext0 : list byte :=
  encode "raw evidence: 40 bytes of int32 samples.".

Definition metadata0 : string := "CASE:PF-001|SUBJ:S-17".
Definition metadata1 : string := "CASE:PF-002|SUBJ:S-17".

Definition bundle0 : EncryptedBundle :=
  fst (encrypt_data_gcm plaintext0 metadata0 rng0).

(** A corruption of the first two ciphertext blocks chosen with the
    key that the bundle carries: block 1 is xored with [delta] and
    block 2 with [delta * H], so that the two changes cancel in GHASH. *)
Definition key0 : list byte := fst (get_random_bytes 32 rng0).
Definition delta : N := 1.
Definition mask0 : list byte :=
  be_bytes 16 delta
  ++ be_bytes 16 (GCM.gf_mul delta (GCM.hash_subkey (aes_block key0)))
  ++ repeat x00 8.

Definition ciphertext0 : list byte :=
  match Base64.b64decode (ciphertext bundle0) with
  | Ok ct => ct
  | Raise _ => []
  end.

Definition forged0 : EncryptedBundle :=
  with_ciphertext bundle0 (Base64.b64encode_str (xor_bytes ciphertext0 mask0)).

End Worked.

(** ** The chain-of-custody ledger of [PFEICSEnhancedSystem] *)

Module Custody.
Import Bytes PyStr Json.

Inductive ChainEventType : Type :=
| EVIDENCE_ACQUIRED
| EVIDENCE_ENCRYPTED
| WATERMARK_EMBEDDED
| INTEGRITY_VERIFIED
| INTEGRITY_FAILED
| EXPORT_PERFORMED
| IMPORT_PERFORMED
| AI_ANALYSIS_RUN
| CONTAINER_CREATED
| EXAMINER_AUTH
| TAMPER_SIMULATED.

Definition value (t : ChainEventType) : string :=
  match t with
  | EVIDENCE_ACQUIRED => "evidence_acquired"
  | EVIDENCE_ENCRYPTED => "evidence_encrypted"
  | WATERMARK_EMBEDDED => "watermark_embedded"
  | INTEGRITY_VERIFIED => "integrity_verified"
  | INTEGRITY_FAILED => "integrity_failed"
  | EXPORT_PERFORMED => "export_performed"
  | IMPORT_PERFORMED => "import_performed"
  | AI_ANALYSIS_RUN => "ai_analysis_run"
  | CONTAINER_CREATED => "container_created"
  | EXAMINER_AUTH => "examiner_authenticated"
  | TAMPER_SIMULATED => "tamper_simulated"
  end.

(** Dictionaries are objects: an event holds a reference to its
    [event_data], and the store maps references to contents.  A
    reference is the index of the object in the store. *)
Abbreviation loc := nat.
Abbreviation store := (list pydict).

Definition deref (st : store) (l : loc) : pydict :=
  match st !! l with
  | Some d => d
  | None => []
  end.

Definition alloc (st : store) (d : pydict) : loc * store :=
  (length st, st ++ [d]).

Record ChainOfCustodyEvent : Type := {
  event_id : Z;
  event_type : ChainEventType;
  timestamp : string;
  examiner_id : string;
  description : string;
  previous_hash : string;
  event_data : loc;
  signature : option string
}.

Definition with_signature (e : ChainOfCustodyEvent) (s : option string)
  : ChainOfCustodyEvent :=
  {| event_id := event_id e; event_type := event_type e;
     timestamp := timestamp e; examiner_id := examiner_id e;
     description := description e; previous_hash := previous_hash e;
     event_data := event_data e; signature := s |}.

Definition canonical (st : store) (e : ChainOfCustodyEvent) : string :=
  str_of_Z (event_id e) ++ "|" ++ value (event_type e) ++ "|"
  ++ timestamp e ++ "|" ++ examiner_id e ++ "|" ++ description e ++ "|"
  ++ previous_hash e ++ "|" ++ dumps_sorted (JDict (deref st (event_data e))).

(** [ChainOfCustodyEvent.compute_hash]: reads the event's fields, the
    current contents of its [event_data] among them. *)
Definition compute_hash (st : store) (e : ChainOfCustodyEvent) : string :=
  SHA2.sha512_hexdigest (encode (canonical st e)).

(** [asdict(event)] with the enum replaced by its value, as the signing
    path builds it. *)
Definition event_dict (st : store) (e : ChainOfCustodyEvent) : json :=
  JDict [ ("event_id", JInt (event_id e));
          ("event_type", JStr (value (event_type e)));
          ("timestamp", JStr (timestamp e));
          ("examiner_id", JStr (examiner_id e));
          ("description", JStr (description e));
          ("previous_hash", JStr (previous_hash e));
          ("event_data", JDict (deref st (event_data e)));
          ("signature", match signature e with
                        | Some s => JStr s
                        | None => JNull
                        end) ].

Definition GENESIS : string := repeat_str "0" 128.

Definition sanitize_dict (d : list (string * pyobj)) : pydict :=
  match json_serialize_safe (PDict d) with
  | JDict d' => d'
  | _ => []
  end.

Section Ledger.
Variable RsaKey : Type.
Variable pkcs1_15_sign : RsaKey -> list byte -> list byte.

(** The part of [PFEICSEnhancedSystem] the ledger uses: the events, the
    chain tip, the examiner's key, the text of the "Badge ID" entry,
    and the dictionary objects. *)
Record System : Type := {
  chain_events : list ChainOfCustodyEvent;
  chain_hash : string;
  examiner_private_key : option RsaKey;
  badge_id : string;
  dicts : store
}.

Definition init (badge : string) : System :=
  {| chain_events := []; chain_hash := GENESIS;
     examiner_private_key := None; badge_id := badge; dicts := [] |}.

Definition set_examiner_key (sys : System) (k : RsaKey) : System :=
  {| chain_events := chain_events sys; chain_hash := chain_hash sys;
     examiner_private_key := Some k; badge_id := badge_id sys;
     dicts := dicts sys |}.

(** [add_chain_event(event_type, description, event_data)] at UTC time
    [now]. *)
Definition add_chain_event (sys : System) (event_type : ChainEventType)
    (description : string) (event_data : option (list (string * pyobj)))
    (now : string) : System :=
  let event_data0 := match event_data with
                     | Some d => d
                     | None => []
                     end in
  (* json_serialize_safe builds a new dict; the event refers to it *)
  let '(l, st1) := alloc (dicts sys) (sanitize_dict event_data0) in
  let event :=
    {| event_id := Z.of_nat (length (chain_events sys));
       event_type := event_type;
       timestamp := now;
       examiner_id := badge_id sys;
       description := description;
       previous_hash := chain_hash sys;
       event_data := l;
       signature := None |} in
  let event :=
    match examiner_private_key sys with
    | Some k =>
        with_signature event
          (Some (CryptoEngine.sign_data RsaKey pkcs1_15_sign
                   (encode (dumps_sorted (event_dict st1 event))) k))
    | None => event
    end in
  let new_hash := compute_hash st1 event in
  (* event_data['event_hash'] = self.chain_hash: a write into the very
     dict the event refers to *)
  let st2 := <[l := dict_set "event_hash" (JStr new_hash) (deref st1 l)]> st1 in
  {| chain_events := chain_events sys ++ [event];
     chain_hash := new_hash;
     examiner_private_key := examiner_private_key sys;
     badge_id := badge_id sys;
     dicts := st2 |}.

End Ledger.

Arguments chain_events {RsaKey} _.
Arguments chain_hash {RsaKey} _.
Arguments examiner_private_key {RsaKey} _.
Arguments badge_id {RsaKey} _.
Arguments dicts {RsaKey} _.

(** Two events logged on a fresh system, before any examiner key
    exists. *)
Definition no_sign : unit -> list byte -> list byte := fun _ d => d.

Definition ledger1 : System unit :=
  add_chain_event unit no_sign (init unit "B-1024") EVIDENCE_ACQUIRED
    "Raw evidence acquired: 2560 samples @ 256 Hz"
    (Some [("sample_count", PInt 2560); ("sampling_rate", PInt 256)])
    "2025-01-01T10:00:00.000001".

Definition ledger2 : System unit :=
  add_chain_event unit no_sign ledger1 EVIDENCE_ENCRYPTED
    "Raw evidence encrypted and secured"
    (Some [("algorithm", PStr "AES-256-GCM"); ("metadata_bound", PBool true)])
    "2025-01-01T10:00:01.000002".

End Custody.

(** *** Reachable ledgers and what links their events *)

Module CustodySpec.
Import Bytes Json Custody.

(** The hash an event carries in its own data. *)
Definition stored_hash (st : store) (e : ChainOfCustodyEvent) : option json :=
  dict_get "event_hash" (deref st (event_data e)).

Section Ledger.
Variable RsaKey : Type.
Variable pkcs1_15_sign : RsaKey -> list byte -> list byte.

Abbreviation add := (add_chain_event RsaKey pkcs1_15_sign).

(** The states the ledger goes through: a fresh system, a key set by
    [authenticate_examiner], and events added. *)
Inductive reachable : System RsaKey -> Prop :=
| reach_init badge : reachable (init RsaKey badge)
| reach_key sys k : reachable sys -> reachable (set_examiner_key RsaKey sys k)
| reach_add sys t d data now :
    reachable sys -> reachable (add sys t d data now).

Record linked (sys : System RsaKey) : Prop := {
  lk_first : forall e, chain_events sys !! 0%nat = Some e -> previous_hash e = GENESIS;
  lk_next : forall i a b,
    chain_events sys !! i = Some a -> chain_events sys !! S i = Some b ->
    stored_hash (dicts sys) a = Some (JStr (previous_hash b));
  lk_tip : match last (chain_events sys) with
           | Some e => stored_hash (dicts sys) e = Some (JStr (chain_hash sys))
           | None => chain_hash sys = GENESIS
           end;
  lk_ids : forall i e, chain_events sys !! i = Some e -> event_id e = Z.of_nat i;
  lk_refs : forall i e, chain_events sys !! i = Some e ->
                        (event_data e < length (dicts sys))%nat
}.

(** The chain tip after an import: [compute_hash] of the last restored
    event, recomputed from its stored fields. *)
Definition restore_chain_hash (sys : System RsaKey) : System RsaKey :=
  match last (chain_events sys) with
  | Some e =>
      {| chain_events := chain_events sys;
         chain_hash := compute_hash (dicts sys) e;
         examiner_private_key := examiner_private_key sys;
         badge_id := badge_id sys;
         dicts := dicts sys |}
  | None => sys
  end.

End Ledger.

Arguments reachable {RsaKey} pkcs1_15_sign sys.
Arguments linked {RsaKey} sys.
Arguments restore_chain_hash {RsaKey} sys.

End CustodySpec.

(** ** numpy arrays as objects *)

Module Numpy.

(** An [int32] array object: its samples and its [flags.writeable]. *)
Record ndarray : Type := { data : list Z; writeable : bool }.

Abbreviation aloc := nat.
Abbreviation heap := (list ndarray).

(** [a.copy()]: a new, writeable array object with the same samples. *)
Definition np_copy (h : heap) (a : aloc) : result (aloc * heap) :=
  match h !! a with
  | Some arr => Ok (length h, h ++ [{| data := data arr; writeable := true |}])
  | None => Raise (AttributeError "object has no attribute 'copy'")
  end.

Definition np_len (h : heap) (a : aloc) : result nat :=
  match h !! a with
  | Some arr => Ok (length (data arr))
  | None => Raise (TypeError "object has no len()")
  end.

(** [a[i]] for a non-negative index. *)
Definition getitem (h : heap) (a : aloc) (i : nat) : result Z :=
  match h !! a with
  | Some arr =>
      match data arr !! i with
      | Some v => Ok v
      | None => Raise (IndexError "index is out of bounds")
      end
  | None => Raise (TypeError "object is not subscriptable")
  end.

(** [a[i] = v]: refused on a read-only array. *)
Definition setitem (h : heap) (a : aloc) (i : nat) (v : Z) : result heap :=
  match h !! a with
  | Some arr =>
      if writeable arr then
        if (i <? length (data arr))%nat then
          Ok (<[a := {| data := <[i := v]> (data arr); writeable := true |}]> h)
        else Raise (IndexError "index is out of bounds")
      else Raise (ValueError "assignment destination is read-only")
  | None => Raise (TypeError "object does not support item assignment")
  end.

(** [a.flags.writeable = b] *)
Definition set_writeable (h : heap) (a : aloc) (b : bool) : result heap :=
  match h !! a with
  | Some arr => Ok (<[a := {| data := data arr; writeable := b |}]> h)
  | None => Raise (AttributeError "object has no attribute 'flags'")
  end.

End Numpy.

(** ** SignalWatermarking: the spatial (LSB) watermark *)

Module LSB.
Import Bytes PyStr Numpy.

Definition bit_char (b : bool) : ascii := if b then chr 49 else chr 48.

(** [f'{byte:08b}'] *)
Definition byte_bits (b : byte) : string :=
  let n := b2n b in
  String (bit_char (N.testbit n 7)) (String (bit_char (N.testbit n 6))
  (String (bit_char (N.testbit n 5)) (String (bit_char (N.testbit n 4))
  (String (bit_char (N.testbit n 3)) (String (bit_char (N.testbit n 2))
  (String (bit_char (N.testbit n 1)) (String (bit_char (N.testbit n 0))
  EmptyString))))))).

Fixpoint bits_of_bytes (bs : list byte) : string :=
  match bs with
  | [] => EmptyString
  | b :: r => byte_bits b +:+ bits_of_bytes r
  end.

(** [int(c)] of a character of a bit string. *)
Definition int_of_bit (c : ascii) : Z := Z.of_N (ord c) - 48.

(** The loop [for i, bit in enumerate(bits): watermarked[i] = ...],
    from index [i] on. *)
Fixpoint embed_loop (h : heap) (watermarked : aloc) (i : nat) (bits : string)
  : result heap :=
  match bits with
  | EmptyString => Ok h
  | String bit rest =>
      let? x := getitem h watermarked i in
      (* clear the LSB, then set it *)
      let? h' := setitem h watermarked i
                   (Z.lor (Z.land x (Z.lnot 1)) (int_of_bit bit)) in
      embed_loop h' watermarked (S i) rest
  end.

Definition terminator : string := repeat_str "00000000" 4.

Definition embed_lsb_watermark (h : heap) (signal : aloc) (watermark_data : string)
  : result (aloc * heap) :=
  let watermark_bytes := encode watermark_data in
  let bits := bits_of_bytes watermark_bytes +:+ terminator in
  let? n := np_len h signal in
  if (n <? String.length bits)%nat then
    Raise (ValueError ("Signal too short: need "
                       +:+ str_of_N (N.of_nat (String.length bits))
                       +:+ " samples, have " +:+ str_of_N (N.of_nat n)))
  else
    let? copied := np_copy h signal in
    let watermarked := fst copied in
    let? h2 := embed_loop (snd copied) watermarked 0 bits in
    Ok (watermarked, h2).

(** [''.join(str(val & 1) for val in samples)] *)
Fixpoint lsb_bits (samples : list Z) : string :=
  match samples with
  | [] => EmptyString
  | v :: r => str_of_Z (Z.land v 1) +:+ lsb_bits r
  end.

(** [int(byte, 2)] of eight binary digits. *)
Definition int2 (c7 c6 c5 c4 c3 c2 c1 c0 : ascii) : N :=
  fold_left (fun acc c => 2 * acc + (ord c - 48)) [c7; c6; c5; c4; c3; c2; c1; c0] 0.

Definition printable (code : N) : bool :=
  ((32 <=? code) && (code <=? 126)) || (code =? 9) || (code =? 10) || (code =? 13).

(** The decoding loop over groups of eight bits: it stops at a group
    shorter than eight and at a zero byte, and counts every byte outside
    the printable range as an error.  The characters come out in
    reverse, as [chars] accumulates them. *)
Fixpoint decode_loop (bits : string) (chars : list ascii) (bit_errors : nat)
  : list ascii * nat :=
  match bits with
  | String c7 (String c6 (String c5 (String c4
      (String c3 (String c2 (String c1 (String c0 rest))))))) =>
      let char_code := int2 c7 c6 c5 c4 c3 c2 c1 c0 in
      if char_code =? 0 then (chars, bit_errors)
      else if printable char_code then
        decode_loop rest (chr char_code :: chars) bit_errors
      else decode_loop rest (chr 63 :: chars) (S bit_errors)
  | _ => (chars, bit_errors)
  end.

(** The confidence [1.0 - bit_errors / max(len(chars), 1)], as the
    rational it rounds; it is 1.0 exactly when no byte was in error. *)
Definition confidence (bit_errors len_chars : nat) : Q :=
  Qred (1 - (Z.of_nat bit_errors # Pos.of_nat (Nat.max len_chars 1))).

Definition extract_samples (samples : list Z) (max_bytes : nat) : string * Q :=
  let bits := lsb_bits (firstn (max_bytes * 8) samples) in
  let '(chars, bit_errors) := decode_loop bits [] 0 in
  (string_of_list_ascii (rev chars), confidence bit_errors (length chars)).

Definition extract_lsb_watermark (h : heap) (signal : aloc) (max_bytes : nat)
  : result (string * Q) :=
  match h !! signal with
  | Some arr => Ok (extract_samples (data arr) max_bytes)
  | None => Raise (TypeError "object is not subscriptable")
  end.

(** The default of [max_bytes]. *)
Definition default_max_bytes : nat := 1000.

End LSB.

(** *** The embedded samples, as a function of the input samples *)

Module LSBSpec.
Import PyStr LSB.

Definition set_lsb (x : Z) (bit : ascii) : Z :=
  Z.lor (Z.land x (Z.lnot 1)) (int_of_bit bit).

(** The samples after the embedding loop has run over [bits]. *)
Fixpoint write_bits (bits : string) (samples : list Z) : list Z :=
  match bits, samples with
  | String bit rest, x :: samples' => set_lsb x bit :: write_bits rest samples'
  | _, _ => samples
  end.

(** A string of binary digits. *)
Fixpoint binary (bits : string) : Prop :=
  match bits with
  | EmptyString => True
  | String c r => (c = chr 48 \/ c = chr 49) /\ binary r
  end.

Definition all_printable (bs : list byte) : bool :=
  forallb (fun b => printable (Bytes.b2n b)) bs.

(** Where the decoding loop stops: at the end of the bits, or at a
    zero byte. *)
Definition stops (tail : string) : Prop :=
  tail = EmptyString \/ exists rest, tail = "00000000" +:+ rest.

End LSBSpec.

(** A 48-sample signal, and a two character fingerprint: e acute, the
    UTF-8 bytes C3 A9. *)
Module LSBExample.
Import PyStr Numpy.

Definition signal48 : ndarray :=
  {| data := repeat 512%Z 48; writeable := false |}.

Definition heap0 : heap := [signal48].

Definition e_acute : string := String (chr 0xC3) (String (chr 0xA9) EmptyString).

Definition ok_fingerprint : string := "a3f1".

Definition signal64 : ndarray :=
  {| data := map Z.of_nat (seq 100 64); writeable := false |}.

End LSBExample.

(** ** Case metadata and the evidence container *)

Module Container.
Import Numpy.

Record ExaminerCredentials : Type := {
  name : string;
  badge_id : string;
  organization : string;
  certification : string;
  public_key_pem : string;
  timestamp : string
}.

Record CaseMetadata : Type := {
  case_id : string;
  subject_id : string;
  examiner : ExaminerCredentials;
  assessment_type : string;
  stimulus_protocol : string;
  environment_conditions : list (string * string);
  acquisition_timestamp : string;
  device_serial : string;
  calibration_date : string
}.

Definition to_canonical_string (m : CaseMetadata) : string :=
  "CASE:" +:+ case_id m +:+ "|"
  +:+ "SUBJ:" +:+ subject_id m +:+ "|"
  +:+ "EXAM:" +:+ name (examiner m) +:+ ":" +:+ badge_id (examiner m) +:+ "|"
  +:+ "TYPE:" +:+ assessment_type m +:+ "|"
  +:+ "STIM:" +:+ stimulus_protocol m +:+ "|"
  +:+ "TIME:" +:+ acquisition_timestamp m +:+ "|"
  +:+ "DEV:" +:+ device_serial m.

Section WithKey.
Variable RsaKey : Type.

(** The attributes of an [EvidenceContainer]; the two buffers are
    references to array objects, [None] until set. *)
Record EvidenceContainer : Type := {
  case_metadata : CaseMetadata;
  raw_evidence : option aloc;
  watermarked_evidence : option aloc;
  chain : list Custody.ChainOfCustodyEvent;
  examiner_private_key : option RsaKey
}.

(** [EvidenceContainer(case_metadata)] *)
Definition new (m : CaseMetadata) : EvidenceContainer :=
  {| case_metadata := m; raw_evidence := None; watermarked_evidence := None;
     chain := []; examiner_private_key := None |}.

Definition set_raw_evidence (h : heap) (self : EvidenceContainer) (signal : aloc)
  : result (heap * EvidenceContainer) :=
  let? copied := np_copy h signal in
  let self1 :=
    {| case_metadata := case_metadata self;
       raw_evidence := Some (fst copied);
       watermarked_evidence := watermarked_evidence self;
       chain := chain self;
       examiner_private_key := examiner_private_key self |} in
  (* make read-only *)
  let? h2 := set_writeable (snd copied) (fst copied) false in
  Ok (h2, self1).

Definition set_watermarked_evidence (h : heap) (self : EvidenceContainer)
    (signal : aloc) : result (heap * EvidenceContainer) :=
  let? copied := np_copy h signal in
  Ok (snd copied,
      {| case_metadata := case_metadata self;
         raw_evidence := raw_evidence self;
         watermarked_evidence := Some (fst copied);
         chain := chain self;
         examiner_private_key := examiner_private_key self |}).

End WithKey.

Arguments case_metadata {RsaKey} _.
Arguments raw_evidence {RsaKey} _.
Arguments watermarked_evidence {RsaKey} _.
Arguments chain {RsaKey} _.
Arguments examiner_private_key {RsaKey} _.

(** Two acquisitions stored one after the other in one container. *)
Definition demo_examiner : ExaminerCredentials :=
  {| name := "A. Examiner"; badge_id := "B-1024"; organization := "Lab";
     certification := "CFE"; public_key_pem := EmptyString;
     timestamp := "2025-01-01T09:00:00" |}.

Definition demo_case : CaseMetadata :=
  {| case_id := "PF-001"; subject_id := "S-17"; examiner := demo_examiner;
     assessment_type := "BEOS"; stimulus_protocol := "Probe";
     environment_conditions := [("humidity", "45%")];
     acquisition_timestamp := "2025-01-01T10:00:00";
     device_serial := "DEMO-SENSOR-001"; calibration_date := "2025-01-01" |}.

Definition first_signal : ndarray := {| data := [501; 502; 503]%Z; writeable := true |}.
Definition second_signal : ndarray := {| data := [7; 8; 9]%Z; writeable := true |}.
Definition demo_heap : heap := [first_signal; second_signal].

End Container.

(** ** [bytes.fromhex] and [np.unpackbits] *)

Module Hex.
Import Bytes PyStr.

(** [Py_ISSPACE]: space, tab, line feed, vertical tab, form feed,
    carriage return. *)
Definition is_space (c : ascii) : bool :=
  let n := ord c in (n =? 32) || ((9 <=? n) && (n <=? 13)).

Definition hexval (c : ascii) : option N :=
  let n := ord c in
  if (48 <=? n) && (n <=? 57) then Some (n - 48)
  else if (97 <=? n) && (n <=? 102) then Some (n - 87)
  else if (65 <=? n) && (n <=? 70) then Some (n - 55)
  else None.

Definition not_hex : exn :=
  ValueError "non-hexadecimal number found in fromhex() arg".

(** [bytes.fromhex(s)]: white space is skipped between bytes; a byte is
    two hexadecimal digits in a row. *)
Fixpoint fromhex (s : string) : result (list byte) :=
  match s with
  | EmptyString => Ok []
  | String c r =>
      if is_space c then fromhex r
      else
        match hexval c, r with
        | Some top, String c2 r2 =>
            match hexval c2 with
            | Some bot =>
                let? rest := fromhex r2 in
                Ok (n2b (16 * top + bot) :: rest)
            | None => Raise not_hex
            end
        | _, _ => Raise not_hex
        end
  end.

(** [np.unpackbits]: the bits of each byte, most significant first. *)
Definition unpack_byte (b : byte) : list bool :=
  let n := b2n b in
  [N.testbit n 7; N.testbit n 6; N.testbit n 5; N.testbit n 4;
   N.testbit n 3; N.testbit n 2; N.testbit n 1; N.testbit n 0].

Definition unpackbits (bs : list byte) : list bool := flat_map unpack_byte bs.

End Hex.

(** ** SignalWatermarking: the frequency-domain (DWT) watermark

    PyWavelets is outside the repository.  Its single-level transforms
    for the wavelet ['db4'] in the default mode, and the float64
    operations the source applies, are parameters; [wavedec] and
    [waverec] are written as the library composes them.  The module
    [Pywt] below gives the transforms themselves. *)

Module DWT.
Import Bytes PyStr Hex.

Section Pywt.
Variable F : Type.
Variable of_int : Z -> F.        (* astype(float) *)
Variable to_int32 : F -> Z.      (* astype(np.int32) *)
Variable fabs : F -> F.
Variable fmax : F -> F -> F.
Variable fneg : F -> F.
Variable nonneg : F -> bool.     (* x >= 0 *)
Variable dwt : list F -> list F * list F.    (* pywt.dwt: (cA, cD) *)
Variable idwt : list F -> list F -> list F.  (* pywt.idwt *)

(** [pywt.wavedec]: each level splits the approximation of the level
    before; the result is [cA_n; cD_n; ...; cD_1]. *)
Fixpoint wavedec_loop (level : nat) (a : list F) (details : list (list F))
  : list (list F) :=
  match level with
  | O => a :: details
  | S level' =>
      let '(a', d) := dwt a in
      wavedec_loop level' a' (d :: details)
  end.

Definition wavedec (data : list F) (level : nat) : list (list F) :=
  wavedec_loop level data [].

(** [pywt.waverec]: from the coarsest level up; an approximation one
    sample longer than the detail it meets loses its last sample. *)
Fixpoint waverec_loop (a : list F) (ds : list (list F)) : result (list F) :=
  match ds with
  | [] => Ok a
  | d :: ds' =>
      if (length a =? length d + 1)%nat then
        waverec_loop (idwt (firstn (length d) a) d) ds'
      else if (length a =? length d)%nat then
        waverec_loop (idwt a d) ds'
      else Raise (ValueError "coefficient shape mismatch")
  end.

Definition waverec (coeffs : list (list F)) : result (list F) :=
  match coeffs with
  | [] => Raise (ValueError "Coefficient list too short (minimum 1 arrays required)")
  | a :: ds => waverec_loop a ds
  end.

(** The hash prefix as bits: [np.unpackbits] of
    [bytes.fromhex(watermark_hash[:32])]. *)
Definition hash_bits (watermark_hash : string) : result (list bool) :=
  let? hash_bytes := fromhex (str_take 32 watermark_hash) in
  Ok (unpackbits hash_bytes).

(** The sign modulation loop over the watermark bits. *)
Fixpoint modulate (strength : F) (bits : list bool) (detail : list F) : list F :=
  match bits, detail with
  | bit :: bits', c :: detail' =>
      let val := fmax (fabs c) strength in
      (if bit then val else fneg val) :: modulate strength bits' detail'
  | _, _ => detail
  end.

(** [coeffs[1]] *)
Definition detail_of (coeffs : list (list F)) : list F := nth 1 coeffs [].

Definition embed_dwt_watermark (signal : list Z) (watermark_hash : string)
    (strength : F) : result (list Z) :=
  let? watermark_bits := hash_bits watermark_hash in
  (* 1. decompose *)
  let coeffs := wavedec (map of_int signal) 3 in
  let detail_coeffs := detail_of coeffs in
  if (length detail_coeffs <? length watermark_bits)%nat then
    Raise (ValueError "Signal too short for DWT watermarking")
  else
    (* 2. embed via sign modulation *)
    let watermarked_detail := modulate strength watermark_bits detail_coeffs in
    (* 3. reconstruct *)
    let coeffs' := <[1%nat := watermarked_detail]> coeffs in
    let? watermarked := waverec coeffs' in
    Ok (map to_int32 (firstn (length signal) watermarked)).

(** [np.sum(watermark_bits == extracted)]: element by element on equal
    lengths, a single extracted bit is broadcast, other shapes do not
    compare. *)
Definition count_matches (bits extracted : list bool) : result nat :=
  if (length extracted =? length bits)%nat then
    Ok (length (filter (fun p => Bool.eqb (fst p) (snd p)) (combine bits extracted)))
  else
    match extracted with
    | [e] => Ok (length (filter (fun b => Bool.eqb b e) bits))
    | _ => Raise (ValueError "operands could not be broadcast together")
    end.

(** The accuracy [matches / len(watermark_bits)] as the rational it
    rounds; [None] is the NaN of 0 / 0.  The threshold is 0.85. *)
Definition accuracy_of (matches total : nat) : option Q :=
  match total with
  | O => None
  | _ => Some (Qred (Z.of_nat matches # Pos.of_nat total))
  end.

Definition above_threshold (accuracy : option Q) : bool :=
  match accuracy with
  | Some q => match Qlt_le_dec (85 # 100) q with
              | left _ => true
              | right _ => false
              end
  | None => false
  end.

Definition extract_dwt_watermark (signal : list Z) (original_hash : string)
  : result (bool * option Q) :=
  let? watermark_bits := hash_bits original_hash in
  let coeffs := wavedec (map of_int signal) 3 in
  let detail_coeffs := detail_of coeffs in
  (* positive = 1, negative = 0 *)
  let extracted_bits := firstn (length watermark_bits) (map nonneg detail_coeffs) in
  let? matches := count_matches watermark_bits extracted_bits in
  let accuracy := accuracy_of matches (length watermark_bits) in
  Ok (above_threshold accuracy, accuracy).

(** The three levels of [wavedec(x, 'db4', level=3)]. *)
Definition cD1 (x : list F) : list F := snd (dwt x).
Definition cD2 (x : list F) : list F := snd (dwt (fst (dwt x))).
Definition cD3 (x : list F) : list F := snd (dwt (fst (dwt (fst (dwt x))))).
Definition cA3 (x : list F) : list F := fst (dwt (fst (dwt (fst (dwt x))))).

End Pywt.

Arguments cD1 {F} dwt x.
Arguments cD2 {F} dwt x.
Arguments cD3 {F} dwt x.
Arguments cA3 {F} dwt x.

(** The length of the output of [pywt.dwt] on [n] samples, for the
    8-tap filters of 'db4' in the 'symmetric' mode. *)
Definition dwt_coeff_len (n : nat) : nat := ((n + 7) / 2)%nat.

End DWT.

(** The number of watermark positions at which the sign of a detail
    coefficient says the watermark bit. *)
Module DWTSpec.

Section Signs.
Variable F : Type.
Variable nonneg : F -> bool.

Definition sign_matches (bits : list bool) (detail : list F) : nat :=
  length (filter (fun p => Bool.eqb (fst p) (snd p))
                 (combine bits (map nonneg detail))).

End Signs.

Arguments sign_matches {F} nonneg bits detail.

End DWTSpec.

(** *** PyWavelets' single-level transforms for 'db4'

    float64 is the primitive binary64 float.  [pywt.dwt] in the default
    mode 'symmetric' is the library's [downsampling_convolution] with
    step 2: output [k] is the filter laid over the samples that end at
    index [2 * k + 1] of the half-sample symmetric extension, the
    products added to a sum that starts at zero, in the order of the C
    loops (for inputs of at least 8 samples; shorter ones have the same
    terms).  [pywt.idwt] is [upsampling_convolution_valid_sf] of the
    approximation with the low-pass filter, then of the detail with the
    high-pass filter added on top. *)

Module Pywt.
Import PrimFloat.
Local Open Scope Z_scope.

Definition dec_lo : list float :=
  [ -0.010597401784997278; 0.032883011666982945; 0.030841381835986965;
    -0.18703481171888114; -0.02798376941698385; 0.6308807679295904;
    0.7148465705525415; 0.23037781330885523 ]%float.

Definition dec_hi : list float :=
  [ -0.23037781330885523; 0.7148465705525415; -0.6308807679295904;
    -0.02798376941698385; 0.18703481171888114; 0.030841381835986965;
    -0.032883011666982945; -0.010597401784997278 ]%float.

Definition rec_lo : list float := rev dec_lo.
Definition rec_hi : list float := rev dec_hi.

(** [astype(float)] of an integer below 2^63 in magnitude. *)
Definition of_int (z : Z) : float :=
  match z with
  | Z0 => 0%float
  | Zpos _ => of_uint63 (Uint63.of_Z z)
  | Zneg p => (- of_uint63 (Uint63.of_Z (Zpos p)))%float
  end.

(** [astype(np.int32)]: the fraction is dropped; what does not fit
    comes out as the smallest int32, as the x86-64 conversion gives. *)
Definition to_int32 (x : float) : Z :=
  match FloatOps.Prim2SF x with
  | SpecFloat.S754_zero _ => 0
  | SpecFloat.S754_finite s m e =>
      let mag := match e with
                 | Z0 => Zpos m
                 | Zpos k => Zpos m * 2 ^ Zpos k
                 | Zneg k => Zpos m / 2 ^ Zpos k
                 end in
      let t := if s then - mag else mag in
      if ((- 2 ^ 31 <=? t) && (t <? 2 ^ 31))%bool then t else - 2 ^ 31
  | _ => - 2 ^ 31
  end.

(** Python's [max(a, b)] keeps [a] unless [b] is greater. *)
Definition fmax (a b : float) : float := if (a <? b)%float then b else a.

Definition nonneg (x : float) : bool := (0 <=? x)%float.

Definition strength : float := 5%float.

(** The sample at index [i] of the symmetric extension
    [... x1 x0 | x0 x1 ... | ...]. *)
Definition ext (x : list float) (i : Z) : float :=
  let n := Z.of_nat (length x) in
  let j := i mod (2 * n) in
  nth (Z.to_nat (if j <? n then j else 2 * n - 1 - j)) x 0%float.

(** Indices [-6 .. n + 6] of the extension. *)
Definition extended (x : list float) : list float :=
  let n := Z.of_nat (length x) in
  map (fun k => ext x (Z.of_nat k - 6)) (seq 0 6)
  ++ x
  ++ map (fun k => ext x (n + Z.of_nat k)) (seq 0 7).

(** The 8 samples under the filter, for each output in turn. *)
Fixpoint windows (count : nat) (xe : list float) : list (list float) :=
  match count with
  | O => []
  | S c => firstn 8 xe :: windows c (skipn 2 xe)
  end.

(** The order in which the loops add the products for the output at
    index [i]: by filter index, except that past the right end the
    overhanging ones come first, from the innermost outwards. *)
Definition term_order (n i : nat) : list nat :=
  if (i <? n)%nat then seq 0 8
  else rev (seq 0 (i - n + 1)) ++ seq (i - n + 1) (8 - (i - n + 1)).

Definition filter_sum (f w : list float) (order : list nat) : float :=
  fold_left (fun sum j => (sum + nth j f 0 * nth (7 - j) w 0)%float) order 0%float.

Definition downsampling_convolution (f x : list float) : list float :=
  let n := length x in
  map (fun kw => filter_sum f (snd kw) (term_order n (2 * fst kw + 1)))
      (combine (seq 0 (DWT.dwt_coeff_len n))
               (windows (DWT.dwt_coeff_len n) (extended x))).

Definition dwt (x : list float) : list float * list float :=
  (downsampling_convolution dec_lo x, downsampling_convolution dec_hi x).

Definition tap (f : list float) (j : nat) : float := nth j f 0%float.

(** Two outputs for each input index from 3 on: the even and the odd
    taps over the four inputs that end there. *)
Fixpoint upsampling_convolution (lo hi a d : list float) : list float :=
  match a, d with
  | a3 :: (a2 :: a1 :: a0 :: _) as a', d3 :: (d2 :: d1 :: d0 :: _) as d' =>
      let even f x0 x1 x2 x3 :=
        (0 + tap f 0 * x0 + tap f 2 * x1 + tap f 4 * x2 + tap f 6 * x3)%float in
      let odd f x0 x1 x2 x3 :=
        (0 + tap f 1 * x0 + tap f 3 * x1 + tap f 5 * x2 + tap f 7 * x3)%float in
      (0 + even lo a0 a1 a2 a3 + even hi d0 d1 d2 d3)%float
      :: (0 + odd lo a0 a1 a2 a3 + odd hi d0 d1 d2 d3)%float
      :: upsampling_convolution lo hi a' d'
  | _, _ => []
  end.

Definition idwt (a d : list float) : list float :=
  upsampling_convolution rec_lo rec_hi a d.

End Pywt.

(** *** Worked examples with the library's transforms *)

Module DWTSample.
Import DWT.

Definition embed (signal : list Z) (watermark_hash : string) : result (list Z) :=
  embed_dwt_watermark PrimFloat.float Pywt.of_int Pywt.to_int32 PrimFloat.abs
    Pywt.fmax PrimFloat.opp Pywt.dwt Pywt.idwt signal watermark_hash Pywt.strength.

Definition extract (signal : list Z) (original_hash : string)
  : result (bool * option Q) :=
  extract_dwt_watermark PrimFloat.float Pywt.of_int Pywt.nonneg Pywt.dwt
    signal original_hash.

(** [extract_dwt_watermark(embed_dwt_watermark(signal, h), h)] *)
Definition roundtrip (signal : list Z) (h : string) : result (bool * option Q) :=
  let? watermarked := embed signal h in
  extract watermarked h.

(** A 2,560-sample signal and the digest of a canonical metadata
    string, with a second string that shares its first 32 characters. *)
Definition signal2560 : list Z :=
  map (fun i => (500 + (Z.of_nat i * 17) mod 256 - 128)%Z) (seq 0 2560).

Definition fingerprint : string :=
  SHA2.sha512_hexdigest (Bytes.encode "CASE:PF-012|SUBJ:S-17").

Definition other_fingerprint : string :=
  PyStr.str_take 32 fingerprint +:+ PyStr.repeat_str "0" 96.

Definition fingerprint_bits : list bool :=
  Eval vm_compute in
    match hash_bits fingerprint with
    | Ok bits => bits
    | Raise _ => []
    end.

Definition short_signal : list Z := map Z.of_nat (seq 0 64).

End DWTSample.

(** ** The custody log of the medical evidence system
    ([forensic_evidence_system.py]) *)

Module FMESS.
Import PyStr.

Inductive UserRole : Type :=
| INVESTIGATOR | FORENSIC_ANALYST | SUPERVISOR | COURT | ADMIN.

Inductive ChainOfCustodyAction : Type :=
| SEIZED | UPLOADED | ACCESSED | ANALYZED | MODIFIED | EXPORTED | TRANSFERRED | VERIFIED.

Definition action_value (a : ChainOfCustodyAction) : string :=
  match a with
  | SEIZED => "seized"
  | UPLOADED => "uploaded"
  | ACCESSED => "accessed"
  | ANALYZED => "analyzed"
  | MODIFIED => "modified"
  | EXPORTED => "exported"
  | TRANSFERRED => "transferred"
  | VERIFIED => "verified"
  end.

Record ChainOfCustodyEntry : Type := {
  entry_id : string;
  evidence_id : string;
  case_id : string;
  timestamp : string;
  action : ChainOfCustodyAction;
  performed_by : string;
  user_role : UserRole;
  hash_before : option string;
  hash_after : option string;
  details : string;
  location : option string;
  device_info : option string
}.

(** The truth value of an [Optional[str]]: [None] and the empty string
    are false. *)
Definition truthy (o : option string) : bool :=
  match o with
  | Some EmptyString => false
  | Some _ => true
  | None => false
  end.

Definition opt_str_eqb (a b : option string) : bool :=
  match a, b with
  | Some x, Some y => String.eqb x y
  | None, None => true
  | _, _ => false
  end.

Definition is_tampering_detected (e : ChainOfCustodyEntry) : bool :=
  if truthy (hash_before e) && truthy (hash_after e) then
    match action e with
    | ACCESSED | VERIFIED | EXPORTED => negb (opt_str_eqb (hash_before e) (hash_after e))
    | _ => false
    end
  else false.

(** A line of the log file: the header written when the file is
    created, an entry, or text that does not parse as an entry. *)
Inductive line : Type :=
| Header
| Entry (e : ChainOfCustodyEntry)
| Malformed.

(** [add_entry]: the only write, an append. *)
Definition add_entry (log : list line) (e : ChainOfCustodyEntry) : list line :=
  log ++ [Entry e].

(** [get_entries_for_evidence]: the entries of the evidence in file
    order; a line that fails to parse ends the read, and the entries
    collected so far are returned. *)
Fixpoint get_entries_for_evidence (log : list line) (id : string)
  : list ChainOfCustodyEntry :=
  match log with
  | [] => []
  | Header :: r => get_entries_for_evidence r id
  | Entry e :: r =>
      if String.eqb (evidence_id e) id then e :: get_entries_for_evidence r id
      else get_entries_for_evidence r id
  | Malformed :: _ => []
  end.

(** What the verification reports, before it is put into words. *)
Inductive issue : Type :=
| OrderViolation (i : nat)
| HashMismatch (i : nat) (expected got : string)
| Tampering (i : nat) (a : ChainOfCustodyAction).

(** The value of the loop index at which an issue is reported. *)
Definition issue_index (x : issue) : nat :=
  match x with
  | OrderViolation i => i
  | HashMismatch i _ _ => i
  | Tampering i _ => i
  end.

Definition str_of_nat (n : nat) : string := str_of_N (N.of_nat n).

Definition render (x : issue) : string :=
  match x with
  | OrderViolation i => "Timestamp order violation at entry " +:+ str_of_nat i
  | HashMismatch i expected got =>
      "Hash mismatch between entries " +:+ str_of_nat (i - 1) +:+ " and "
      +:+ str_of_nat i +:+ ": Expected " +:+ expected +:+ ", got " +:+ got
  | Tampering i a =>
      "Potential tampering detected at entry " +:+ str_of_nat i
      +:+ ": Hash changed during " +:+ action_value a +:+ " action"
  end.

(** [for i in range(1, len(entries))] over [entries[i-1]], [entries[i]] *)
Fixpoint scan_pairs (check : nat -> ChainOfCustodyEntry -> ChainOfCustodyEntry -> list issue)
    (i : nat) (prev : ChainOfCustodyEntry) (rest : list ChainOfCustodyEntry)
  : list issue :=
  match rest with
  | [] => []
  | e :: r => check i prev e ++ scan_pairs check (S i) e r
  end.

Definition for_pairs (check : nat -> ChainOfCustodyEntry -> ChainOfCustodyEntry -> list issue)
    (entries : list ChainOfCustodyEntry) : list issue :=
  match entries with
  | [] => []
  | e0 :: r => scan_pairs check 1 e0 r
  end.

(** [for i, entry in enumerate(entries)] *)
Fixpoint scan_each (check : nat -> ChainOfCustodyEntry -> list issue)
    (i : nat) (entries : list ChainOfCustodyEntry) : list issue :=
  match entries with
  | [] => []
  | e :: r => check i e ++ scan_each check (S i) r
  end.

Definition check_order (i : nat) (prev cur : ChainOfCustodyEntry) : list issue :=
  if str_lt (timestamp cur) (timestamp prev) then [OrderViolation i] else [].

Definition check_hash (i : nat) (prev cur : ChainOfCustodyEntry) : list issue :=
  match hash_after prev, hash_before cur with
  | Some prev_hash_after, Some curr_hash_before =>
      if truthy (Some prev_hash_after) && truthy (Some curr_hash_before)
         && negb (String.eqb prev_hash_after curr_hash_before)
      then [HashMismatch i prev_hash_after curr_hash_before]
      else []
  | _, _ => []
  end.

Definition check_tamper (i : nat) (e : ChainOfCustodyEntry) : list issue :=
  if is_tampering_detected e then [Tampering i (action e)] else [].

Definition issues_of (entries : list ChainOfCustodyEntry) : list issue :=
  for_pairs check_order entries
  ++ for_pairs check_hash entries
  ++ scan_each check_tamper 0 entries.

Definition verify_chain_integrity (log : list line) (id : string)
  : bool * list string :=
  let entries := get_entries_for_evidence log id in
  match entries with
  | [] => (false, ["No chain of custody entries found"])
  | _ =>
      let issues := map render (issues_of entries) in
      ((length issues =? 0)%nat, issues)
  end.

(** The checks an entry takes part in read four of its fields. *)
Definition same_checked_fields (e e' : ChainOfCustodyEntry) : Prop :=
  timestamp e' = timestamp e /\ hash_before e' = hash_before e
  /\ hash_after e' = hash_after e /\ action e' = action e.

(** A log of two entries for one piece of evidence, a copy with the
    details of the first entry rewritten, and a log to which an access
    with a changed hash was appended. *)
Definition seized : ChainOfCustodyEntry :=
  {| entry_id := "e-0001"; evidence_id := "EV-1"; case_id := "C-9";
     timestamp := "2025-01-01T10:00:00"; action := SEIZED;
     performed_by := "inv.lee"; user_role := INVESTIGATOR;
     hash_before := None; hash_after := Some "aa11";
     details := "Seized at scene"; location := Some "Dock 4"; device_info := None |}.

Definition uploaded : ChainOfCustodyEntry :=
  {| entry_id := "e-0002"; evidence_id := "EV-1"; case_id := "C-9";
     timestamp := "2025-01-01T11:30:00"; action := UPLOADED;
     performed_by := "inv.lee"; user_role := INVESTIGATOR;
     hash_before := Some "aa11"; hash_after := Some "aa11";
     details := "Uploaded to system"; location := None; device_info := None |}.

Definition seized_rewritten : ChainOfCustodyEntry :=
  {| entry_id := "e-0001"; evidence_id := "EV-1"; case_id := "C-9";
     timestamp := "2025-01-01T10:00:00"; action := SEIZED;
     performed_by := "inv.lee"; user_role := INVESTIGATOR;
     hash_before := None; hash_after := Some "aa11";
     details := "Seized at the suspect's home"; location := Some "Dock 4";
     device_info := None |}.

Definition accessed_changed : ChainOfCustodyEntry :=
  {| entry_id := "e-0003"; evidence_id := "EV-1"; case_id := "C-9";
     timestamp := "2025-01-02T09:00:00"; action := ACCESSED;
     performed_by := "analyst.kim"; user_role := FORENSIC_ANALYST;
     hash_before := Some "aa11"; hash_after := Some "bb22";
     details := "Integrity check failed"; location := None; device_info := None |}.

Definition log2 : list line := add_entry (add_entry [Header] seized) uploaded.
Definition log2_rewritten : list line := [Header; Entry seized_rewritten; Entry uploaded].
Definition log3 : list line := add_entry log2 accessed_changed.

End FMESS.

(** *** Base64 round trip *)

Module Base64Facts.
Import Bytes Base64 Base64Spec.

Lemma below_forallb (P : N -> bool) (n : nat) :
    forallb P (map N.of_nat (seq 0 n)) = true ->
    forall v, v < N.of_nat n -> P v = true.
Proof.
    intros H v Hv. rewrite forallb_forall in H. apply H.
    apply in_map_iff. exists (N.to_nat v). split; [apply N2Nat.id|].
    apply in_seq. lia.
Qed.

Lemma n2b_b2n (b : byte) : n2b (b2n b) = b.
Proof.
    unfold n2b, b2n. pose proof (Byte.to_N_bounded b) as Hb.
    rewrite N.mod_small by lia. now rewrite Byte.of_to_N.
Qed.

Lemma b2n_n2b (n : N) : b2n (n2b n) = n mod 256.
Proof.
    unfold n2b, b2n.
    assert (Hlt : n mod 256 < 256) by (apply N.mod_lt; lia).
    destruct (Byte.of_N (n mod 256)) as [b|] eqn:E.
    - now apply Byte.to_of_N.
    - apply Byte.of_N_None_iff in E. lia.
Qed.

Lemma b2n_lt (b : byte) : b2n b < 256.
Proof. unfold b2n. pose proof (Byte.to_N_bounded b). lia. Qed.

Lemma sextet (v : N) :
    v < 64 ->
    dec_char (enc_char v) = Some v /\ (b2n (enc_char v) =? b2n pad_char) = false.
Proof.
    intros Hv. assert (H : sextet_ok v = true).
    { revert v Hv. apply (below_forallb sextet_ok 64). vm_compute. reflexivity. }
    unfold sextet_ok in H. destruct (dec_char (enc_char v)); [|discriminate].
    apply andb_true_iff in H as [H1 H2]. apply N.eqb_eq in H1. subst.
    split; [reflexivity|]. now apply negb_true_iff.
Qed.

Lemma group_ok_all (a : N) : a < 256 -> group_ok a = true.
Proof.
    revert a. apply (below_forallb group_ok 256). vm_compute. reflexivity.
Qed.

Lemma group_facts_byte (b : byte) : group_facts (b2n b).
Proof.
    pose proof (group_ok_all (b2n b) (b2n_lt b)) as H. unfold group_ok in H.
    repeat (apply andb_true_iff in H as [H ?]).
    constructor; try (apply N.ltb_lt; assumption); try (apply N.eqb_eq; assumption).
    - intros h Hh.
      match goal with
      | F : forallb _ (map N.of_nat (seq 0 16)) = true |- _ =>
          pose proof (below_forallb _ 16 F h Hh) as G
      end.
      cbv beta in G. repeat (apply andb_true_iff in G as [G ?]).
      repeat split; try (apply N.ltb_lt; assumption); apply N.eqb_eq; assumption.
    - intros h Hh.
      match goal with
      | F : forallb _ (map N.of_nat (seq 0 4)) = true |- _ =>
          pose proof (below_forallb _ 4 F h Hh) as G
      end.
      cbv beta in G. repeat (apply andb_true_iff in G as [G ?]).
      repeat split; try (apply N.ltb_lt; assumption); apply N.eqb_eq; assumption.
Qed.

  (** One step of the decoder on a character of the alphabet. *)
Lemma step_q0 v r l p :
    v < 64 -> a2b_base64 (enc_char v :: r) 0 l p = a2b_base64 r 1 v 0.
Proof.
    intros Hv. destruct (sextet v Hv) as [Hd Hp].
    cbn [a2b_base64]. now rewrite Hp, Hd.
Qed.

Lemma step_q1 v r l p :
    v < 64 ->
    a2b_base64 (enc_char v :: r) 1 l p =
    let? rest := a2b_base64 r 2 (N.land v 15) 0 in
    Ok (n2b (N.lor (N.shiftl l 2) (N.shiftr v 4)) :: rest).
Proof.
    intros Hv. destruct (sextet v Hv) as [Hd Hp].
    cbn [a2b_base64]. now rewrite Hp, Hd.
Qed.

Lemma step_q2 v r l p :
    v < 64 ->
    a2b_base64 (enc_char v :: r) 2 l p =
    let? rest := a2b_base64 r 3 (N.land v 3) 0 in
    Ok (n2b (N.lor (N.shiftl l 4) (N.shiftr v 2)) :: rest).
Proof.
    intros Hv. destruct (sextet v Hv) as [Hd Hp].
    cbn [a2b_base64]. now rewrite Hp, Hd.
Qed.

Lemma step_q3 v r l p :
    v < 64 ->
    a2b_base64 (enc_char v :: r) 3 l p =
    let? rest := a2b_base64 r 0 0 0 in
    Ok (n2b (N.lor (N.shiftl l 6) v) :: rest).
Proof.
    intros Hv. destruct (sextet v Hv) as [Hd Hp].
    cbn [a2b_base64]. now rewrite Hp, Hd.
Qed.

Lemma list_ind3 {A} (P : list A -> Prop) :
    P [] -> (forall a, P [a]) -> (forall a b, P [a; b]) ->
    (forall a b c r, P r -> P (a :: b :: c :: r)) ->
    forall l, P l.
Proof.
    intros H0 H1 H2 H3 l.
    assert (G : P l /\ (forall a, P (a :: l)) /\ (forall a b, P (a :: b :: l))).
    { induction l as [|x l [I0 [I1 I2]]]; [auto|].
      split; [apply I1|]. split; [intros; apply I2|]. intros; now apply H3. }
    apply G.
Qed.

Lemma a2b_b64encode (bs : list byte) :
    a2b_base64 (b64encode bs) 0 0 0 = Ok bs.
Proof.
    induction bs as [|a|a b|a b c r IH] using list_ind3.
    - reflexivity.
    - destruct (group_facts_byte a) as [A1 _ _ _ _ A2 _].
      destruct (A2 0 ltac:(lia)) as (B1 & B2 & B3).
      unfold s2 in B1, B2, B3. rewrite N.lor_0_r in B1, B2, B3.
      cbn [b64encode]. rewrite step_q0 by exact A1. rewrite step_q1 by exact B1.
      fold (s1 (b2n a)). rewrite B2, B3, n2b_b2n. reflexivity.
    - destruct (group_facts_byte a) as [A1 _ _ _ _ A2 _].
      destruct (group_facts_byte b) as [_ _ Bh _ _ _ B3].
      destruct (A2 _ Bh) as (C1 & C2 & C3).
      destruct (B3 0 ltac:(lia)) as (D1 & D2 & D3).
      unfold s3 in D1, D2, D3. rewrite N.lor_0_r in D1, D2, D3.
      cbn [b64encode]. rewrite step_q0 by exact A1.
      fold (s2 (b2n a) (N.shiftr (b2n b) 4)).
      rewrite step_q1 by exact C1. rewrite step_q2 by exact D1.
      fold (s1 (b2n a)). rewrite C2, C3, D3, !n2b_b2n. reflexivity.
    - destruct (group_facts_byte a) as [A1 _ _ _ _ A2 _].
      destruct (group_facts_byte b) as [_ _ Bh _ _ _ B3].
      destruct (group_facts_byte c) as [_ C4 _ Ch C5 _ _].
      destruct (A2 _ Bh) as (E1 & E2 & E3).
      destruct (B3 _ Ch) as (F1 & F2 & F3).
      cbn [b64encode]. rewrite step_q0 by exact A1.
      fold (s2 (b2n a) (N.shiftr (b2n b) 4)).
      fold (s3 (b2n b) (N.shiftr (b2n c) 6)).
      fold (s4 (b2n c)).
      rewrite step_q1 by exact E1. rewrite step_q2 by exact F1.
      rewrite step_q3 by exact C4. rewrite IH.
      fold (s1 (b2n a)). rewrite E2, E3, F2, F3, C5, !n2b_b2n. reflexivity.
Qed.

Lemma enc_char_ascii (v : N) : b2n (enc_char v) < 128.
Proof.
    unfold enc_char.
    repeat match goal with
           | |- context [if ?c then _ else _] => destruct c eqn:?
           end;
      rewrite ?b2n_n2b; try (vm_compute; reflexivity);
      repeat match goal with
             | H : (_ <? _) = true |- _ => apply N.ltb_lt in H
             | H : (_ <? _) = false |- _ => apply N.ltb_ge in H
             end.
    - rewrite N.mod_small; lia.
    - rewrite N.mod_small; lia.
    - rewrite N.mod_small; lia.
Qed.

Lemma b64encode_ascii (bs : list byte) :
    forallb (fun b => b2n b <? 128) (b64encode bs) = true.
Proof.
    induction bs as [|a|a b|a b c r IH] using list_ind3; cbn [b64encode forallb];
      rewrite ?IH, ?andb_true_r;
      repeat (apply andb_true_iff; split);
      try (apply N.ltb_lt; apply enc_char_ascii); reflexivity.
Qed.

Lemma encode_decode (bs : list byte) : encode (decode bs) = bs.
Proof. apply list_byte_of_string_of_list_byte. Qed.

Lemma decode_encode (s : string) : decode (encode s) = s.
Proof. apply string_of_list_byte_of_string. Qed.

  (** [b64decode(b64encode(bs).decode()) == bs] *)
Lemma b64decode_b64encode (bs : list byte) :
    b64decode (b64encode_str bs) = Ok bs.
Proof.
    unfold b64decode, b64encode_str, is_ascii.
    rewrite encode_decode, b64encode_ascii. apply a2b_b64encode.
Qed.

End Base64Facts.

Module CryptoFacts.
Import Bytes Base64 Base64Facts CryptoEngine.

Lemma lxor_lt_256 (a b : N) : a < 256 -> b < 256 -> N.lxor a b < 256.
Proof.
    intros Ha Hb. destruct (N.eq_dec (N.lxor a b) 0) as [->|Hn]; [lia|].
    change 256 with (2 ^ 8). apply N.log2_lt_pow2; [lia|].
    pose proof (N.log2_lxor a b) as Hl.
    assert (La : N.log2 a < 8).
    { destruct (N.eq_dec a 0) as [->|]; [reflexivity|].
      apply N.log2_lt_pow2; [lia| exact Ha]. }
    assert (Lb : N.log2 b < 8).
    { destruct (N.eq_dec b 0) as [->|]; [reflexivity|].
      apply N.log2_lt_pow2; [lia| exact Hb]. }
    lia.
Qed.

Lemma bxor_involutive (b k : byte) : bxor (bxor b k) k = b.
Proof.
    unfold bxor. rewrite b2n_n2b.
    rewrite N.mod_small by (apply lxor_lt_256; apply b2n_lt).
    rewrite N.lxor_assoc, N.lxor_nilpotent, N.lxor_0_r. apply n2b_b2n.
Qed.

Lemma ctr_from_involutive E J0 (data : list byte) :
    forall i, GCM.ctr_from E J0 i (GCM.ctr_from E J0 i data) = data.
Proof.
    induction data as [|b r IH]; intros i; cbn [GCM.ctr_from]; [reflexivity|].
    now rewrite bxor_involutive, IH.
Qed.

Lemma ctr_from_length E J0 (data : list byte) :
    forall i, length (GCM.ctr_from E J0 i data) = length data.
Proof.
    induction data as [|b r IH]; intros i; cbn [GCM.ctr_from length]; [reflexivity|].
    now rewrite IH.
Qed.

Lemma bytes_eqb_eq (a b : list byte) : bytes_eqb a b = true <-> a = b.
Proof.
    revert b. induction a as [|x a IH]; intros [|y b]; cbn [bytes_eqb];
      try (split; [discriminate|discriminate]); [tauto|].
    rewrite andb_true_iff, IH. split.
    - intros [H1 H2]. apply Byte.byte_dec_bl in H1. now subst.
    - intros H. injection H as -> ->. split; [apply Byte.byte_dec_lb|]; reflexivity.
Qed.

Lemma bytes_eqb_refl (a : list byte) : bytes_eqb a a = true.
Proof. now apply bytes_eqb_eq. Qed.

  (** The mode itself: what was encrypted and tagged decrypts and
      verifies, with the same nonce and associated data. *)
Lemma gcm_roundtrip E n aad pt :
    let '(ct, t) := GCM.encrypt_and_digest E n aad pt in
    GCM.decrypt_and_verify E n aad ct t = Ok pt.
Proof.
    unfold GCM.encrypt_and_digest, GCM.decrypt_and_verify, GCM.ctr_crypt.
    now rewrite bytes_eqb_refl, ctr_from_involutive.
Qed.

Lemma get_random_bytes_length n rng : length (fst (get_random_bytes n rng)) = n.
Proof. unfold get_random_bytes. cbn [fst]. now rewrite length_map, length_seq. Qed.

End CryptoFacts.


(** ** Encryption round trip *)

Module RoundTrip.
Import Bytes Base64 Base64Facts CryptoEngine CryptoFacts.

Lemma valid_key_length_32 (k : list byte) :
  length k = 32%nat -> AES.valid_key_length k = true.
Proof. intros H. unfold AES.valid_key_length. now rewrite H. Qed.

Lemma AES_new_gcm_random rng :
  let '(k, rng1) := get_random_bytes 32 rng in
  let '(n, _) := get_random_bytes 16 rng1 in
  AES_new_gcm k n = Ok (aes_block k).
Proof.
  cbn [get_random_bytes]. unfold AES_new_gcm.
  rewrite valid_key_length_32 by now rewrite length_map, length_seq.
  reflexivity.
Qed.


End RoundTrip.

(** ** Decryption of a tampered bundle *)

Module Tamper.
Import Bytes Base64 Base64Facts CryptoEngine CryptoFacts Worked.

(** What [decrypt_data_gcm] does once the four fields decode and the
    cipher is set up: one tag comparison decides. *)
Lemma decrypt_data_gcm_decoded (b : EncryptedBundle) (md : string) k n t ct E :
  b64decode (key b) = Ok k -> b64decode (nonce b) = Ok n ->
  b64decode (tag b) = Ok t -> b64decode (ciphertext b) = Ok ct ->
  AES_new_gcm k n = Ok E ->
  decrypt_data_gcm b md =
  if bytes_eqb (GCM.mac E (GCM.j0 E n) (encode md) ct) t
  then Ok (GCM.ctr_crypt E (GCM.j0 E n) ct)
  else Raise decryption_failed.
Proof.
  intros Hk Hn Ht Hc HE. unfold decrypt_data_gcm.
  rewrite Hk, Hn, Ht, Hc. cbn [rbind]. rewrite HE. cbn [rbind].
  unfold GCM.decrypt_and_verify.
  destruct (bytes_eqb _ t); reflexivity.
Qed.

Lemma no_IntegrityError (e : exn) : exn_name e <> "IntegrityError".
Proof. destruct e; discriminate. Qed.

(** C2, counterexample.  The bundle of the worked encryption, decrypted
    with another case's metadata, raises the generic [ValueError], not
    an [IntegrityError]; and its copy whose first two ciphertext blocks
    were altered with the help of the stored key passes the tag check
    and decrypts to a plaintext that is not the original. *)
Lemma decrypt_data_gcm_counterexample :
  decrypt_data_gcm bundle0 metadata0 = Ok plaintext0
  /\ metadata1 <> metadata0
  /\ decrypt_data_gcm bundle0 metadata1
     = Raise (ValueError "Decryption failed: Data tampered or metadata mismatch")
  /\ ~ fails_with "IntegrityError" (decrypt_data_gcm bundle0 metadata1)
  /\ ciphertext forged0 <> ciphertext bundle0
  /\ ciphertext forged0 = "SLCmp3TfU0BvOxei2ZMW+1K+BNVtCqSoq6NB26auStpDmfHr8zvS3A=="
  /\ (exists p, decrypt_data_gcm forged0 metadata0 = Ok p /\ p <> plaintext0).
Proof.
  split; [vm_compute; reflexivity|].
  split; [discriminate|].
  split; [vm_compute; reflexivity|].
  split; [intros (e & _ & He); exact (no_IntegrityError e He)|].
  split; [vm_compute; discriminate|].
  split; [vm_compute; reflexivity|].
  eexists. split; [vm_compute; reflexivity|]. vm_compute. discriminate.
Qed.

(** C2, as the code has it.  On a bundle made by [encrypt_data_gcm],
    decryption with any metadata string, or with the ciphertext field
    replaced by any text, is decided by one comparison: the GCM tag
    recomputed over the supplied metadata and ciphertext against the
    stored tag.  When they differ the call raises
    [ValueError("Decryption failed: Data tampered or metadata mismatch")];
    when they agree it returns the counter-mode decryption of the
    supplied ciphertext, which under another metadata string is the
    original plaintext.  A ciphertext field that is not base64 raises
    the decoder's error.  No exception is an [IntegrityError]. *)
Theorem decrypt_data_gcm_tampered (plaintext : list byte) (metadata : string)
    (rng : Entropy) (metadata' : string) (ciphertext' : string) :
  let bundle := fst (encrypt_data_gcm plaintext metadata rng) in
  let k := fst (get_random_bytes 32 rng) in
  let n := fst (get_random_bytes 16 (snd (get_random_bytes 32 rng))) in
  let E := aes_block k in
  let J0 := GCM.j0 E n in
  let ct := GCM.ctr_crypt E J0 plaintext in
  let t := GCM.mac E J0 (encode metadata) ct in
  decrypt_data_gcm bundle metadata' =
    (if bytes_eqb (GCM.mac E J0 (encode metadata') ct) t
     then Ok plaintext else Raise decryption_failed)
  /\ decrypt_data_gcm (with_ciphertext bundle ciphertext') metadata =
    match b64decode ciphertext' with
    | Ok ct' =>
        if bytes_eqb (GCM.mac E J0 (encode metadata) ct') t
        then Ok (GCM.ctr_crypt E J0 ct') else Raise decryption_failed
    | Raise e => Raise e
    end
  /\ (forall b md, ~ fails_with "IntegrityError" (decrypt_data_gcm b md)).
Proof.
  cbv zeta.
  pose proof (RoundTrip.AES_new_gcm_random rng) as Hnew.
  unfold encrypt_data_gcm.
  destruct (get_random_bytes 32 rng) as [k rng1] eqn:Ek.
  destruct (get_random_bytes 16 rng1) as [n rng2] eqn:En.
  unfold GCM.encrypt_and_digest. cbn [fst snd]. rewrite En. cbn [fst].
  split; [|split].
  - erewrite decrypt_data_gcm_decoded;
      [| cbn [key nonce tag ciphertext]; try apply b64decode_b64encode; try exact Hnew ..].
    unfold GCM.ctr_crypt. now rewrite ctr_from_involutive.
  - unfold decrypt_data_gcm, with_ciphertext. cbn [key nonce tag ciphertext].
    rewrite !b64decode_b64encode. cbn [rbind].
    destruct (b64decode ciphertext') as [ct'|e]; cbn [rbind]; [|reflexivity].
    rewrite Hnew. cbn [rbind]. unfold GCM.decrypt_and_verify.
    destruct (bytes_eqb _ _); reflexivity.
  - intros b md (e & _ & He). exact (no_IntegrityError e He).
Qed.

End Tamper.

(** ** The ledger: what links the events *)

Module CustodyFacts.
Import Bytes PyStr Json Custody CustodySpec.

Lemma dict_get_set_eq {A} (k : string) (v : A) (d : list (string * A)) :
  dict_get k (dict_set k v d) = Some v.
Proof.
  induction d as [|[k' v'] r IH]; cbn [dict_set dict_get].
  - now rewrite String.eqb_refl.
  - destruct (String.eqb k k') eqn:E; cbn [dict_get]; rewrite ?String.eqb_refl, ?E; auto.
Qed.

Lemma dict_get_set_ne {A} (k k0 : string) (v : A) (d : list (string * A)) :
  k0 <> k -> dict_get k0 (dict_set k v d) = dict_get k0 d.
Proof.
  intros Hne. induction d as [|[k' v'] r IH]; cbn [dict_set dict_get].
  - destruct (String.eqb k0 k) eqn:E; [apply String.eqb_eq in E; contradiction|reflexivity].
  - destruct (String.eqb k k') eqn:E; cbn [dict_get].
    + apply String.eqb_eq in E. subst k'.
      destruct (String.eqb k0 k) eqn:E0; [apply String.eqb_eq in E0; contradiction|reflexivity].
    + now rewrite IH.
Qed.

Section Ledger.
Variable RsaKey : Type.
Variable pkcs1_15_sign : RsaKey -> list byte -> list byte.

Abbreviation add := (add_chain_event RsaKey pkcs1_15_sign).

(** What one call does: one event is appended, linked to the chain tip
    and numbered by its position; the new tip is the hash computed
    before the event's data received its ["event_hash"] entry; the
    dictionaries of the earlier events are left as they were. *)
Lemma add_chain_event_step sys t d data now :
  exists e,
    chain_events (add sys t d data now) = chain_events sys ++ [e]
    /\ previous_hash e = chain_hash sys
    /\ event_id e = Z.of_nat (length (chain_events sys))
    /\ event_data e = length (dicts sys)
    /\ stored_hash (dicts (add sys t d data now)) e
       = Some (JStr (chain_hash (add sys t d data now)))
    /\ length (dicts (add sys t d data now)) = S (length (dicts sys))
    /\ forall l, (l < length (dicts sys))%nat ->
         deref (dicts (add sys t d data now)) l = deref (dicts sys) l.
Proof.
  unfold add_chain_event, alloc.
  set (d0 := sanitize_dict _).
  set (ev0 := {| event_id := _ |}).
  set (ev := match examiner_private_key sys with Some _ => _ | None => _ end).
  assert (Hev : previous_hash ev = chain_hash sys
                /\ event_id ev = Z.of_nat (length (chain_events sys))
                /\ event_data ev = length (dicts sys)).
  { subst ev. destruct (examiner_private_key sys); repeat split. }
  destruct Hev as (H1 & H2 & H3).
  exists ev. cbn [chain_events chain_hash dicts].
  repeat split; try assumption.
  - unfold stored_hash, deref. rewrite H3.
    rewrite list_lookup_insert_eq by (rewrite length_app; cbn; lia).
    apply dict_get_set_eq.
  - rewrite length_insert, length_app. cbn. lia.
  - intros l Hl. unfold deref.
    rewrite list_lookup_insert_ne by lia.
    now rewrite lookup_app_l by exact Hl.
Qed.

Lemma add_chain_event_linked sys t d data now :
  linked sys -> linked (add sys t d data now).
Proof.
  intros [Hf Hn Ht Hi Hr].
  destruct (add_chain_event_step sys t d data now)
    as (e & Hev & Hprev & Hid & Hloc & Hst & Hlen & Hframe).
  assert (Hold : forall i a, chain_events sys !! i = Some a ->
                 stored_hash (dicts (add sys t d data now)) a = stored_hash (dicts sys) a).
  { intros i a Ha. unfold stored_hash. rewrite Hframe; [reflexivity|]. eapply Hr, Ha. }
  constructor; rewrite ?Hev.
  - intros e0 H0. destruct (chain_events sys) as [|x r] eqn:Ex.
    + cbn in H0. injection H0 as <-. rewrite Hprev. exact Ht.
    + cbn in H0. apply (Hf e0). exact H0.
  - intros i a b Ha Hb.
    destruct (decide (S i < length (chain_events sys))%nat) as [Hlt|Hge].
    + rewrite lookup_app_l in Ha by lia. rewrite lookup_app_l in Hb by lia.
      rewrite (Hold _ _ Ha). eapply Hn; eassumption.
    + assert (Hi' : S i = length (chain_events sys)).
      { apply lookup_lt_Some in Hb. rewrite length_app in Hb. cbn in Hb. lia. }
      rewrite lookup_app_l in Ha by lia.
      rewrite lookup_app_r in Hb by lia.
      replace (S i - length (chain_events sys))%nat with 0%nat in Hb by lia.
      cbn in Hb. injection Hb as <-.
      rewrite (Hold _ _ Ha), Hprev.
      assert (Hl : last (chain_events sys) = Some a).
      { rewrite last_lookup. rewrite <- Hi'. cbn. exact Ha. }
      now rewrite Hl in Ht.
  - rewrite last_snoc. exact Hst.
  - intros i e0 He0.
    destruct (decide (i < length (chain_events sys))%nat) as [Hlt|Hge].
    + rewrite lookup_app_l in He0 by lia. eapply Hi, He0.
    + assert (i = length (chain_events sys)).
      { apply lookup_lt_Some in He0. rewrite length_app in He0. cbn in He0. lia. }
      subst i. rewrite lookup_app_r in He0 by lia.
      rewrite Nat.sub_diag in He0. cbn in He0. injection He0 as <-. exact Hid.
  - intros i e0 He0. rewrite Hlen.
    destruct (decide (i < length (chain_events sys))%nat) as [Hlt|Hge].
    + rewrite lookup_app_l in He0 by lia. specialize (Hr _ _ He0). lia.
    + assert (i = length (chain_events sys)).
      { apply lookup_lt_Some in He0. rewrite length_app in He0. cbn in He0. lia. }
      subst i. rewrite lookup_app_r in He0 by lia.
      rewrite Nat.sub_diag in He0. cbn in He0. injection He0 as <-. lia.
Qed.

(** Every reachable ledger starts at the genesis value and links each
    event to the hash its predecessor carries in its data. *)
Lemma reachable_linked sys : reachable pkcs1_15_sign sys -> linked sys.
Proof.
  induction 1 as [badge|sys k _ IH|sys t d data now _ IH].
  - constructor; cbn; try discriminate; reflexivity.
  - destruct IH as [Hf Hn Ht Hi Hr]. constructor; cbn; assumption.
  - now apply add_chain_event_linked.
Qed.

(** Events are only ever appended: the ones already in the list stay,
    with the dictionaries they refer to. *)
Lemma add_chain_event_append_only sys t d data now i e :
  linked sys ->
  chain_events sys !! i = Some e ->
  chain_events (add sys t d data now) !! i = Some e
  /\ deref (dicts (add sys t d data now)) (event_data e)
     = deref (dicts sys) (event_data e).
Proof.
  intros Hl He.
  destruct (add_chain_event_step sys t d data now)
    as (e' & Hev & _ & _ & _ & _ & _ & Hframe).
  split.
  - rewrite Hev. rewrite lookup_app_l; [exact He|]. eapply lookup_lt_Some, He.
  - apply Hframe. eapply lk_refs; eassumption.
Qed.

End Ledger.

(** C1, at a concrete ledger.  Two events are added to a fresh system.
    The first starts from the genesis value, and the second is linked to
    the hash computed when the first was created, which is the value the
    first carries under ["event_hash"].  Recomputing [compute_hash] from
    the stored fields of the first event gives another value: its data
    received the ["event_hash"] entry after the hash was taken.  For the
    same reason the chain tip that an import recomputes from the last
    stored event is not the tip the ledger had. *)
Theorem previous_hash_not_recomputed :
  exists e0 e1,
    chain_events ledger2 = [e0; e1]
    /\ previous_hash e0 = GENESIS
    /\ stored_hash (dicts ledger2) e0 = Some (JStr (previous_hash e1))
    /\ previous_hash e1
       = "7d665e77564fb9767dd4aaa2c5d18e8d216a5207b9f0833746f52a2580fafdfa23c0fb5c709c16e7d13ebd1dfe0a518eb3095ed08682b2abb234e871887f52a4"
    /\ compute_hash (dicts ledger2) e0
       = "c4de219089bb651c935be0157e598453e1bd99c8e97b00a539ee649143f6be896779e31e5b14d60429a3b440fc8603c53b9892df8127351f1a477150eadd9cf0"
    /\ previous_hash e1 <> compute_hash (dicts ledger2) e0
    /\ chain_hash (restore_chain_hash ledger2) <> chain_hash ledger2.
Proof.
  eexists _, _. split; [vm_compute; reflexivity|].
  split; [vm_compute; reflexivity|].
  split; [vm_compute; reflexivity|].
  split; [vm_compute; reflexivity|].
  split; [vm_compute; reflexivity|].
  split; vm_compute; discriminate.
Qed.

End CustodyFacts.

(** ** The spatial watermark *)

Module LSBFacts.
Import Bytes PyStr Numpy LSB LSBSpec.

Lemma app_cons x (a b : string) : String x a +:+ b = String x (a +:+ b).
Proof. reflexivity. Qed.

Lemma string_app_assoc (a b c : string) : (a +:+ b) +:+ c = a +:+ (b +:+ c).
Proof.
  induction a as [|x a IH]; [reflexivity|]. rewrite !app_cons. now rewrite IH.
Qed.

Lemma string_length_app (a b : string) :
  String.length (a +:+ b) = (String.length a + String.length b)%nat.
Proof.
  induction a as [|x a IH]; [reflexivity|].
  rewrite app_cons. cbn [String.length]. now rewrite IH.
Qed.

Lemma binary_app (a b : string) : binary a -> binary b -> binary (a +:+ b).
Proof.
  induction a as [|x a IH]; [intros _ Hb; exact Hb|].
  rewrite app_cons. cbn [binary]. intros [Hx Ha] Hb. split; auto.
Qed.

Lemma binary_byte_bits (b : byte) : binary (byte_bits b).
Proof.
  unfold byte_bits, bit_char. cbn [binary].
  repeat split; match goal with |- context [if ?c then _ else _] => destruct c end; auto.
Qed.

Lemma binary_bits_of_bytes (bs : list byte) : binary (bits_of_bytes bs).
Proof.
  induction bs as [|b r IH]; cbn [bits_of_bytes]; [exact I|].
  apply binary_app; [apply binary_byte_bits|exact IH].
Qed.

Lemma binary_terminator : binary terminator.
Proof. vm_compute. tauto. Qed.

Lemma length_byte_bits (b : byte) : String.length (byte_bits b) = 8%nat.
Proof. reflexivity. Qed.

Lemma length_bits_of_bytes (bs : list byte) :
  String.length (bits_of_bytes bs) = (8 * List.length bs)%nat.
Proof.
  induction bs as [|b r IH]; cbn [bits_of_bytes length]; [reflexivity|].
  rewrite string_length_app, length_byte_bits, IH. lia.
Qed.

Lemma length_terminator : String.length terminator = 32%nat.
Proof. reflexivity. Qed.

(** *** The loop as a function *)

Lemma length_write_bits (bits : string) (l : list Z) :
  List.length (write_bits bits l) = List.length l.
Proof.
  revert l. induction bits as [|c r IH]; intros [|x l]; cbn; auto.
Qed.

Lemma embed_loop_spec (bits : string) :
  forall (h : heap) (w : aloc) (i : nat) (d : list Z),
    h !! w = Some {| data := d; writeable := true |} ->
    (i + String.length bits <= List.length d)%nat ->
    embed_loop h w i bits =
    Ok (<[w := {| data := take i d ++ write_bits bits (drop i d); writeable := true |}]> h).
Proof.
  induction bits as [|c r IH]; intros h w i d Hw Hlen.
  - cbn [embed_loop write_bits]. rewrite take_drop. now rewrite list_insert_id.
  - cbn [String.length] in Hlen.
    assert (Hi : (i < List.length d)%nat) by lia.
    destruct (lookup_lt_is_Some_2 d i Hi) as [x Hx].
    cbn [embed_loop]. unfold getitem, setitem. rewrite Hw. cbn [data writeable].
    rewrite Hx. cbn [rbind].
    apply Nat.ltb_lt in Hi as Hib. rewrite Hib. cbn [rbind].
    rewrite (IH _ w (S i) (<[i := set_lsb x c]> d)).
    + rewrite list_insert_insert_eq. do 3 f_equal.
      rewrite (take_S_r _ _ (set_lsb x c))
        by (apply list_lookup_insert_eq; exact Hi).
      rewrite take_insert_ge by lia.
      rewrite drop_insert_lt by lia.
      rewrite (drop_S d x i Hx). cbn [write_bits].
      now rewrite <- app_assoc.
    + apply list_lookup_insert_eq. eapply lookup_lt_Some, Hw.
    + rewrite length_insert. lia.
Qed.

(** [embed_lsb_watermark] on a signal with room for the bits: a new
    array object holding the rewritten samples is appended to the heap. *)
Lemma embed_lsb_watermark_spec (h : heap) (signal : aloc) (arr : ndarray) (wm : string) :
  h !! signal = Some arr ->
  (8 * List.length (encode wm) + 32 <= List.length (data arr))%nat ->
  embed_lsb_watermark h signal wm =
  Ok (List.length h,
      h ++ [{| data := write_bits (bits_of_bytes (encode wm) +:+ terminator) (data arr);
               writeable := true |}]).
Proof.
  intros Hs Hcap. unfold embed_lsb_watermark, np_len, np_copy. rewrite Hs. cbn [rbind].
  set (bits := bits_of_bytes (encode wm) +:+ terminator).
  assert (Hbits : String.length bits = (8 * List.length (encode wm) + 32)%nat).
  { subst bits. now rewrite string_length_app, length_bits_of_bytes, length_terminator. }
  assert (Hnlt : (List.length (data arr) <? String.length bits)%nat = false)
    by (apply Nat.ltb_ge; lia).
  rewrite Hnlt. cbn [rbind fst snd].
  rewrite (embed_loop_spec bits _ _ 0%nat (data arr)).
  - cbn [rbind take drop app]. f_equal. f_equal.
    rewrite insert_app_r_alt by lia. rewrite Nat.sub_diag. reflexivity.
  - rewrite lookup_app_r by lia. now rewrite Nat.sub_diag.
  - lia.
Qed.

(** The capacity check: a signal shorter than the bit string is
    refused, and nothing is allocated. *)
Lemma embed_lsb_watermark_too_short (h : heap) (signal : aloc) (arr : ndarray) (wm : string) :
  h !! signal = Some arr ->
  (List.length (data arr) < 8 * List.length (encode wm) + 32)%nat ->
  exists msg, embed_lsb_watermark h signal wm = Raise (ValueError msg).
Proof.
  intros Hs Hcap. unfold embed_lsb_watermark, np_len. rewrite Hs. cbn [rbind].
  rewrite string_length_app, length_bits_of_bytes, length_terminator.
  assert (Hlt : (List.length (data arr) <? 8 * List.length (encode wm) + 32)%nat = true)
    by (apply Nat.ltb_lt; lia).
  rewrite Hlt. eexists. reflexivity.
Qed.

(** *** One sample *)

Local Open Scope Z_scope.

Lemma int_of_bit_binary (c : ascii) :
  c = chr 48 \/ c = chr 49 -> int_of_bit c = 0%Z \/ int_of_bit c = 1%Z.
Proof. intros [->| ->]; [left|right]; reflexivity. Qed.

Lemma set_lsb_eq (x : Z) (c : ascii) :
  c = chr 48 \/ c = chr 49 ->
  set_lsb x c = (2 * (x / 2) + int_of_bit c)%Z.
Proof.
  intros Hc. unfold set_lsb. apply Z.bits_inj'. intros n Hn.
  rewrite Z.lor_spec, Z.land_spec, Z.lnot_spec by lia.
  destruct (Z.eq_dec n 0) as [->|Hpos].
  - destruct Hc as [-> | ->]; cbn [int_of_bit].
    + change (int_of_bit (chr 48)) with 0%Z.
      rewrite Z.add_0_r, Z.testbit_even_0. cbn. now rewrite andb_false_r.
    + change (int_of_bit (chr 49)) with 1%Z.
      rewrite Z.testbit_odd_0. cbn. now rewrite orb_true_r.
  - replace n with (Z.succ (n - 1)) by lia.
    assert (H1 : Z.testbit 1 (Z.succ (n - 1)) = false)
      by (apply (Z.bits_above_log2 1); cbn; lia).
    rewrite H1. cbn [negb]. rewrite andb_true_r.
    destruct Hc as [-> | ->]; cbn [int_of_bit].
    + change (int_of_bit (chr 48)) with 0%Z.
      rewrite Z.add_0_r, Z.testbit_even_succ by lia.
      rewrite Z.div2_bits by lia. rewrite Z.bits_0. now rewrite orb_false_r.
    + change (int_of_bit (chr 49)) with 1%Z.
      rewrite Z.testbit_odd_succ by lia.
      rewrite Z.div2_bits by lia. rewrite H1. now rewrite orb_false_r.
Qed.

Lemma set_lsb_shiftr (x : Z) (c : ascii) :
  c = chr 48 \/ c = chr 49 -> Z.shiftr (set_lsb x c) 1 = Z.shiftr x 1.
Proof.
  intros Hc. rewrite (set_lsb_eq x c Hc).
  rewrite !Z.shiftr_div_pow2 by lia. change (2 ^ 1) with 2.
  generalize (x / 2). intros q.
  destruct (int_of_bit_binary c Hc) as [-> | ->]; Z.div_mod_to_equations; lia.
Qed.

Lemma set_lsb_land (x : Z) (c : ascii) :
  c = chr 48 \/ c = chr 49 -> Z.land (set_lsb x c) 1 = int_of_bit c.
Proof.
  intros Hc. rewrite (set_lsb_eq x c Hc).
  pose proof (Z.land_ones (2 * (x / 2) + int_of_bit c) 1 ltac:(lia)) as H.
  change (Z.ones 1) with 1 in H. rewrite H.
  change (2 ^ 1)%Z with 2%Z. generalize (x / 2). intros q.
  destruct (int_of_bit_binary c Hc) as [-> | ->]; Z.div_mod_to_equations; lia.
Qed.

Lemma set_lsb_close (x : Z) (c : ascii) :
  c = chr 48 \/ c = chr 49 -> (Z.abs (set_lsb x c - x) <= 1)%Z.
Proof.
  intros Hc. rewrite (set_lsb_eq x c Hc).
  destruct (int_of_bit_binary c Hc) as [-> | ->]; Z.div_mod_to_equations; lia.
Qed.

Local Close Scope Z_scope.

(** *** The rewritten samples *)

Lemma write_bits_lookup_ge (bits : string) :
  forall (l : list Z) (i : nat),
    (String.length bits <= i)%nat -> write_bits bits l !! i = l !! i.
Proof.
  induction bits as [|c r IH]; intros [|x l] i Hi; cbn [write_bits]; try reflexivity.
  cbn [String.length] in Hi. destruct i as [|i]; [lia|]. cbn. apply IH. lia.
Qed.

Lemma write_bits_lookup (bits : string) :
  binary bits ->
  forall (l : list Z) (i : nat) (x y : Z),
    l !! i = Some x -> write_bits bits l !! i = Some y ->
    Z.shiftr y 1 = Z.shiftr x 1 /\ (Z.abs (y - x) <= 1)%Z.
Proof.
  induction bits as [|c r IH]; intros Hb l i x y Hx Hy.
  - cbn [write_bits] in Hy. rewrite Hx in Hy. injection Hy as <-.
    split; [reflexivity|lia].
  - destruct l as [|x0 l]; [discriminate|]. destruct Hb as [Hc Hr].
    cbn [write_bits] in Hy. destruct i as [|i]; cbn in Hx, Hy.
    + injection Hx as <-. injection Hy as <-.
      split; [now apply set_lsb_shiftr|now apply set_lsb_close].
    + eapply IH; eassumption.
Qed.

Lemma write_bits_app (b1 b2 : string) :
  forall l : list Z,
    (String.length b1 <= List.length l)%nat ->
    write_bits (b1 +:+ b2) l =
    write_bits b1 (take (String.length b1) l) ++ write_bits b2 (drop (String.length b1) l).
Proof.
  induction b1 as [|c r IH]; intros l Hl.
  - reflexivity.
  - destruct l as [|x l]; [cbn in Hl; lia|].
    rewrite app_cons. cbn [write_bits String.length take drop app].
    rewrite IH by (cbn in Hl; lia). reflexivity.
Qed.

Lemma lsb_bits_app (l1 l2 : list Z) :
  lsb_bits (l1 ++ l2) = lsb_bits l1 +:+ lsb_bits l2.
Proof.
  induction l1 as [|x l IH]; [reflexivity|].
  cbn [app lsb_bits]. now rewrite IH, string_app_assoc.
Qed.

Lemma str_of_bit (c : ascii) :
  c = chr 48 \/ c = chr 49 -> str_of_Z (int_of_bit c) = String c EmptyString.
Proof. intros [-> | ->]; reflexivity. Qed.

Lemma lsb_bits_write_bits (bits : string) :
  binary bits ->
  forall l : list Z,
    String.length bits = List.length l -> lsb_bits (write_bits bits l) = bits.
Proof.
  induction bits as [|c r IH]; intros Hb l Hl.
  - destruct l; [reflexivity|discriminate].
  - destruct l as [|x l]; [discriminate|]. destruct Hb as [Hc Hr].
    cbn [write_bits lsb_bits]. rewrite set_lsb_land, str_of_bit by exact Hc.
    rewrite app_cons. cbn [String.append]. f_equal.
    apply IH; [exact Hr|]. cbn in Hl. lia.
Qed.

(** *** Decoding *)

Lemma int2_byte_bits (b : byte) :
  let n := b2n b in
  int2 (bit_char (N.testbit n 7)) (bit_char (N.testbit n 6))
       (bit_char (N.testbit n 5)) (bit_char (N.testbit n 4))
       (bit_char (N.testbit n 3)) (bit_char (N.testbit n 2))
       (bit_char (N.testbit n 1)) (bit_char (N.testbit n 0)) = b2n b.
Proof. destruct b; vm_compute; reflexivity. Qed.

Lemma printable_nonzero (n : N) : printable n = true -> (n =? 0) = false.
Proof. intros H. destruct (N.eqb_spec n 0) as [->|]; [discriminate|reflexivity]. Qed.

Lemma decode_loop_bytes (bs : list byte) :
  forall (tail : string) (chars : list ascii) (errs : nat),
    all_printable bs = true ->
    decode_loop (bits_of_bytes bs +:+ tail) chars errs =
    decode_loop tail (rev (map ascii_of_byte bs) ++ chars) errs.
Proof.
  induction bs as [|b r IH]; intros tail chars errs Hp; [reflexivity|].
  cbn [all_printable forallb] in Hp. apply andb_true_iff in Hp as [Hb Hr].
  cbn [bits_of_bytes]. rewrite string_app_assoc.
  unfold byte_bits. rewrite !app_cons.
  change (EmptyString +:+ (bits_of_bytes r +:+ tail)) with (bits_of_bytes r +:+ tail).
  cbn [decode_loop]. rewrite (int2_byte_bits b).
  rewrite (printable_nonzero _ Hb), Hb.
  rewrite IH by exact Hr. cbn [map rev]. rewrite <- app_assoc. cbn [app].
  unfold chr. now rewrite <- ascii_of_byte_via_N.
Qed.

Lemma decode_loop_stops (tail : string) (chars : list ascii) (errs : nat) :
  stops tail -> decode_loop tail chars errs = (chars, errs).
Proof. intros [-> | [rest ->]]; reflexivity. Qed.

Lemma confidence_no_error (n : nat) : confidence 0 n = 1%Q.
Proof.
  unfold confidence. transitivity (Qred 1); [|reflexivity].
  apply Qred_complete. unfold Qeq. simpl.
  generalize (Pos.of_nat (Nat.max n 1)). intros p. lia.
Qed.

Lemma terminator_stops (k : nat) (rest : list Z) :
  (32 <= List.length rest)%nat -> k = 0%nat \/ (8 <= k)%nat ->
  stops (lsb_bits (take k (write_bits terminator rest))).
Proof.
  intros Hlen [-> | Hk]; [left; reflexivity|].
  do 8 (destruct rest as [|? rest]; [cbn in Hlen; lia|]).
  do 8 (destruct k as [|k]; [lia|]).
  right. change terminator with "00000000000000000000000000000000".
  cbn [write_bits take lsb_bits].
  rewrite !set_lsb_land by (left; reflexivity).
  change (str_of_Z (int_of_bit "0")) with "0".
  rewrite !app_cons. eexists. reflexivity.
Qed.

(** C9.  When the signal has room for the bits of the watermark and the
    terminator, [embed_lsb_watermark] returns a new array object: no
    array that existed is modified, the input among them; the new array
    has the length of the input; each of its samples agrees with the
    input sample in every bit but the least significant one, so differs
    from it by at most 1; and from index 8 * (bytes of the watermark) +
    32 on, its samples are the input's. *)
Theorem embed_lsb_watermark_frame (h : heap) (signal : aloc) (arr : ndarray) (wm : string) :
  h !! signal = Some arr ->
  (8 * List.length (encode wm) + 32 <= List.length (data arr))%nat ->
  exists w h' out,
    embed_lsb_watermark h signal wm = Ok (w, h')
    /\ w <> signal
    /\ h' !! w = Some out
    /\ (forall a, (a < List.length h)%nat -> h' !! a = h !! a)
    /\ h' !! signal = Some arr
    /\ List.length (data out) = List.length (data arr)
    /\ forall i x y,
         data arr !! i = Some x -> data out !! i = Some y ->
         Z.shiftr y 1 = Z.shiftr x 1
         /\ (Z.abs (y - x) <= 1)%Z
         /\ ((8 * List.length (encode wm) + 32 <= i)%nat -> y = x).
Proof.
  intros Hs Hcap.
  pose proof (lookup_lt_Some _ _ _ Hs) as Hlt.
  set (bits := bits_of_bytes (encode wm) +:+ terminator).
  assert (Hbits : String.length bits = (8 * List.length (encode wm) + 32)%nat).
  { subst bits. now rewrite string_length_app, length_bits_of_bytes, length_terminator. }
  assert (Hbin : binary bits).
  { apply binary_app; [apply binary_bits_of_bytes|apply binary_terminator]. }
  eexists _, _, _. split; [apply (embed_lsb_watermark_spec h signal arr wm Hs Hcap)|].
  split; [lia|].
  split; [rewrite lookup_app_r by lia; rewrite Nat.sub_diag; reflexivity|].
  split; [intros a Ha; now rewrite lookup_app_l by exact Ha|].
  split; [rewrite lookup_app_l by exact Hlt; exact Hs|].
  cbn [data]. split; [apply length_write_bits|].
  intros i x y Hx Hy. fold bits in Hy.
  destruct (write_bits_lookup bits Hbin _ _ _ _ Hx Hy) as [H1 H2].
  repeat split; try assumption.
  intros Hi. rewrite write_bits_lookup_ge in Hy by lia. congruence.
Qed.

(** C9 at a 64-sample signal and a four character watermark. *)
Lemma embed_lsb_watermark_frame_witness :
  exists w h' out,
    embed_lsb_watermark [LSBExample.signal64] 0%nat LSBExample.ok_fingerprint = Ok (w, h')
    /\ w <> 0%nat
    /\ h' !! w = Some out
    /\ (forall a, (a < List.length [LSBExample.signal64])%nat -> h' !! a = [LSBExample.signal64] !! a)
    /\ h' !! 0%nat = Some LSBExample.signal64
    /\ List.length (data out) = List.length (data LSBExample.signal64)
    /\ forall i x y,
         data LSBExample.signal64 !! i = Some x -> data out !! i = Some y ->
         Z.shiftr y 1 = Z.shiftr x 1
         /\ (Z.abs (y - x) <= 1)%Z
         /\ ((8 * List.length (encode LSBExample.ok_fingerprint) + 32 <= i)%nat -> y = x).
Proof.
  apply (embed_lsb_watermark_frame [LSBExample.signal64] 0%nat LSBExample.signal64
           LSBExample.ok_fingerprint).
  - reflexivity.
  - vm_compute. lia.
Defined.




End LSBFacts.

(** ** The container's raw evidence *)

Module ContainerFacts.
Import Numpy Container.

Section WithKey.
Variable RsaKey : Type.

Abbreviation set_raw := (set_raw_evidence RsaKey).

(** What a call stores: a new read-only array object with the samples
    of the signal; every array that existed is left as it was. *)
Lemma set_raw_evidence_spec (h : heap) (c : EvidenceContainer RsaKey)
    (signal : aloc) (arr : ndarray) :
  h !! signal = Some arr ->
  exists c',
    set_raw h c signal
    = Ok (h ++ [{| data := data arr; writeable := false |}], c')
    /\ raw_evidence c' = Some (List.length h)
    /\ case_metadata c' = case_metadata c
    /\ watermarked_evidence c' = watermarked_evidence c
    /\ chain c' = chain c.
Proof.
  intros Hs. unfold set_raw_evidence, np_copy, set_writeable.
  rewrite Hs. cbn [rbind fst snd].
  rewrite lookup_app_r by lia. rewrite Nat.sub_diag. cbn [lookup list_lookup rbind data].
  rewrite insert_app_r_alt by lia. rewrite Nat.sub_diag. cbn [insert list_insert].
  eexists. split; [reflexivity|]. repeat split.
Qed.

(** C7, as the code has it.  [set_raw_evidence] stores a defensive copy
    marked read-only: an assignment into the stored buffer is refused,
    and a write into the caller's array leaves the stored buffer as it
    is.  A later call on the same container does not fail: the
    container then refers to a read-only copy of the new signal, and the
    array object stored first is left untouched. *)
Theorem set_raw_evidence_again (h : heap) (c : EvidenceContainer RsaKey)
    (s1 s2 : aloc) (a1 a2 : ndarray) :
  h !! s1 = Some a1 -> h !! s2 = Some a2 ->
  exists h1 c1 r1 h2 c2 r2,
    set_raw h c s1 = Ok (h1, c1)
    /\ raw_evidence c1 = Some r1
    /\ r1 <> s1
    /\ h1 !! r1 = Some {| data := data a1; writeable := false |}
    /\ (forall i v, setitem h1 r1 i v
                    = Raise (ValueError "assignment destination is read-only"))
    /\ (forall i v h', setitem h1 s1 i v = Ok h' -> h' !! r1 = h1 !! r1)
    /\ set_raw h1 c1 s2 = Ok (h2, c2)
    /\ raw_evidence c2 = Some r2
    /\ r2 <> r1
    /\ h2 !! r2 = Some {| data := data a2; writeable := false |}
    /\ h2 !! r1 = h1 !! r1.
Proof.
  intros H1 H2.
  pose proof (lookup_lt_Some _ _ _ H1) as L1.
  pose proof (lookup_lt_Some _ _ _ H2) as L2.
  destruct (set_raw_evidence_spec h c s1 a1 H1) as (c1 & E1 & R1 & _).
  set (h1 := h ++ [{| data := data a1; writeable := false |}]) in *.
  assert (H2' : h1 !! s2 = Some a2) by (subst h1; now rewrite lookup_app_l by lia).
  assert (Hr1 : h1 !! List.length h = Some {| data := data a1; writeable := false |}).
  { subst h1. rewrite lookup_app_r by lia. now rewrite Nat.sub_diag. }
  destruct (set_raw_evidence_spec h1 c1 s2 a2 H2') as (c2 & E2 & R2 & _).
  exists h1, c1, (List.length h), (h1 ++ [{| data := data a2; writeable := false |}]),
    c2, (List.length h1).
  split; [exact E1|]. split; [exact R1|]. split; [lia|]. split; [exact Hr1|].
  split.
  { intros i v. unfold setitem. rewrite Hr1. reflexivity. }
  split.
  { intros i v h' Hset. unfold setitem in Hset.
    assert (Hs1 : h1 !! s1 = Some a1) by (subst h1; now rewrite lookup_app_l by lia).
    rewrite Hs1 in Hset.
    destruct (writeable a1); [|discriminate].
    destruct (i <? List.length (data a1))%nat; [|discriminate].
    injection Hset as <-. rewrite list_lookup_insert_ne by lia. reflexivity. }
  split; [exact E2|]. split; [exact R2|].
  split; [subst h1; rewrite length_app; cbn; lia|].
  split; [rewrite lookup_app_r by lia; now rewrite Nat.sub_diag|].
  rewrite lookup_app_l; [reflexivity|]. subst h1. rewrite length_app. cbn. lia.
Qed.

End WithKey.

(** C7 at two three-sample signals. *)
Lemma set_raw_evidence_again_witness :
  exists h1 c1 r1 h2 c2 r2,
    set_raw_evidence unit demo_heap (new unit demo_case) 0%nat = Ok (h1, c1)
    /\ raw_evidence c1 = Some r1
    /\ r1 <> 0%nat
    /\ h1 !! r1 = Some {| data := data first_signal; writeable := false |}
    /\ (forall i v, setitem h1 r1 i v
                    = Raise (ValueError "assignment destination is read-only"))
    /\ (forall i v h', setitem h1 0%nat i v = Ok h' -> h' !! r1 = h1 !! r1)
    /\ set_raw_evidence unit h1 c1 1%nat = Ok (h2, c2)
    /\ raw_evidence c2 = Some r2
    /\ r2 <> r1
    /\ h2 !! r2 = Some {| data := data second_signal; writeable := false |}
    /\ h2 !! r1 = h1 !! r1.
Proof.
  apply (set_raw_evidence_again unit demo_heap (new unit demo_case) 0%nat 1%nat
           first_signal second_signal); reflexivity.
Defined.

(** C7, counterexample.  After a first signal was stored, a second
    call on the same container returns normally, and the container's raw
    evidence then holds the samples of the second signal. *)
Lemma set_raw_evidence_counterexample :
  exists h1 c1 h2 c2 r2,
    set_raw_evidence unit demo_heap (new unit demo_case) 0%nat = Ok (h1, c1)
    /\ raw_evidence c1 = Some 2%nat
    /\ set_raw_evidence unit h1 c1 1%nat = Ok (h2, c2)
    /\ raw_evidence c2 = Some r2
    /\ h2 !! r2 = Some {| data := [7; 8; 9]%Z; writeable := false |}
    /\ raw_evidence c2 <> raw_evidence c1.
Proof.
  eexists _, _, _, _, _.
  split; [vm_compute; reflexivity|]. split; [reflexivity|].
  split; [vm_compute; reflexivity|]. split; [reflexivity|].
  split; [reflexivity|]. discriminate.
Qed.

End ContainerFacts.

(** ** The frequency-domain watermark *)

Module DWTFacts.
Import Bytes PyStr Hex DWT.

Lemma length_str_take (n : nat) (s : string) : (String.length (str_take n s) <= n)%nat.
Proof.
  revert s. induction n as [|n IH]; intros [|c r]; cbn; try lia.
  specialize (IH r). lia.
Qed.

(** Two characters at least go into each byte. *)
Lemma fromhex_length (n : nat) :
  forall (s : string) (bs : list byte),
    (String.length s <= n)%nat -> fromhex s = Ok bs ->
    (2 * List.length bs <= String.length s)%nat.
Proof.
  induction n as [|n IH]; intros s bs Hn H.
  - destruct s; [|cbn in Hn; lia]. cbn in H. injection H as <-. cbn. lia.
  - destruct s as [|c r]; [cbn in H; injection H as <-; cbn; lia|].
    cbn [fromhex] in H. cbn [String.length] in Hn |- *.
    destruct (is_space c).
    + specialize (IH r bs ltac:(lia) H). lia.
    + destruct (hexval c) as [top|]; [|discriminate].
      destruct r as [|c2 r2]; [discriminate|].
      destruct (hexval c2) as [bot|]; [|discriminate].
      cbn [String.length] in Hn |- *.
      destruct (fromhex r2) as [rest|e] eqn:E; [|discriminate].
      cbn [rbind] in H. injection H as <-.
      specialize (IH r2 rest ltac:(lia) E). cbn [List.length]. lia.
Qed.

Lemma length_unpackbits (bs : list byte) :
  List.length (unpackbits bs) = (8 * List.length bs)%nat.
Proof.
  induction bs as [|b r IH]; [reflexivity|].
  unfold unpackbits in *. cbn [flat_map]. rewrite length_app, IH. cbn. lia.
Qed.

Section Pywt.
Variable F : Type.
Variable of_int : Z -> F.
Variable to_int32 : F -> Z.
Variable fabs : F -> F.
Variable fmax : F -> F -> F.
Variable fneg : F -> F.
Variable nonneg : F -> bool.
Variable dwt : list F -> list F * list F.
Variable idwt : list F -> list F -> list F.

Abbreviation embed := (embed_dwt_watermark F of_int to_int32 fabs fmax fneg dwt idwt).
Abbreviation extract := (extract_dwt_watermark F of_int nonneg dwt).

Lemma hash_bits_at_most_128 (h : string) (bits : list bool) :
  hash_bits h = Ok bits -> (List.length bits <= 128)%nat.
Proof.
  unfold hash_bits. destruct (fromhex (str_take 32 h)) as [bs|e] eqn:E; [|discriminate].
  cbn [rbind]. intros H. injection H as <-.
  pose proof (fromhex_length _ _ _ (Nat.le_refl _) E) as H2.
  pose proof (length_str_take 32 h) as H3.
  rewrite length_unpackbits. lia.
Qed.

(** C10.  Two hash strings with the same first 32 characters give, on
    any signal and with any strength, the same embedding result and the
    same extraction result; and whatever the hash, at most 128 bits of
    it are embedded or compared. *)
Theorem dwt_reads_32_characters (signal : list Z) (hash1 hash2 : string) (strength : F) :
  str_take 32 hash1 = str_take 32 hash2 ->
  embed signal hash1 strength = embed signal hash2 strength
  /\ extract signal hash1 = extract signal hash2
  /\ (forall bits, hash_bits hash1 = Ok bits -> (List.length bits <= 128)%nat).
Proof.
  intros H.
  assert (Hb : hash_bits hash1 = hash_bits hash2)
    by (unfold hash_bits; now rewrite H).
  split; [|split].
  - unfold embed_dwt_watermark. now rewrite Hb.
  - unfold extract_dwt_watermark. now rewrite Hb.
  - apply hash_bits_at_most_128.
Qed.

(** *** Which coefficients are modulated *)

Hypothesis dwt_length :
  forall x, List.length (fst (dwt x)) = dwt_coeff_len (List.length x)
            /\ List.length (snd (dwt x)) = dwt_coeff_len (List.length x).

Lemma wavedec_3 (x : list F) :
  wavedec F dwt x 3 = [cA3 dwt x; cD3 dwt x; cD2 dwt x; cD1 dwt x].
Proof.
  unfold wavedec, cA3, cD3, cD2, cD1. cbn [wavedec_loop].
  destruct (dwt x) as [a1 d1]. cbn [fst snd].
  destruct (dwt a1) as [a2 d2]. cbn [fst snd].
  destruct (dwt a2) as [a3 d3]. reflexivity.
Qed.

(** The coefficients the embedder modulates are [coeffs[1]], the
    detail of the third, coarsest level. *)
Lemma detail_of_wavedec (x : list F) :
  detail_of F (wavedec F dwt x 3) = cD3 dwt x.
Proof. now rewrite wavedec_3. Qed.

Lemma waverec_loop_error (ds : list (list F)) :
  forall a e, waverec_loop F idwt a ds = Raise e ->
              e = ValueError "coefficient shape mismatch".
Proof.
  induction ds as [|d ds IH]; intros a e H; cbn [waverec_loop] in H; [discriminate|].
  destruct (List.length a =? List.length d + 1)%nat; [eapply IH, H|].
  destruct (List.length a =? List.length d)%nat; [eapply IH, H|].
  now injection H as <-.
Qed.

(** The capacity check compares the number of those coefficients with
    the number of watermark bits. *)
Lemma embed_capacity (signal : list Z) (h : string) (strength : F) (bits : list bool) :
  hash_bits h = Ok bits ->
  (List.length (cD3 dwt (map of_int signal)) < List.length bits)%nat <->
  embed signal h strength = Raise (ValueError "Signal too short for DWT watermarking").
Proof.
  intros Hb. unfold embed_dwt_watermark. rewrite Hb. cbn [rbind].
  rewrite detail_of_wavedec.
  destruct (Nat.ltb_spec (List.length (cD3 dwt (map of_int signal))) (List.length bits)) as [Hlt|Hge].
  - split; [reflexivity|intros _; exact Hlt].
  - split; [lia|]. intros H.
    destruct (waverec F idwt _) as [w|e] eqn:E; cbn [rbind] in H; [discriminate|].
    exfalso. rewrite wavedec_3 in E. cbn [insert list_insert waverec] in E.
    apply waverec_loop_error in E. subst e. discriminate.
Qed.

(** C8, at 2,560 samples.  [wavedec] with [level=3] returns the
    coefficients as [cA3; cD3; cD2; cD1], and the embedder takes the
    entry at index 1: the 326 detail coefficients of level 3.  The
    detail coefficients of level 1 are the last entry and number 1,283. *)
Theorem detail_coefficients_2560 (signal : list Z) :
  List.length signal = 2560%nat ->
  let coeffs := wavedec F dwt (map of_int signal) 3 in
  detail_of F coeffs = cD3 dwt (map of_int signal)
  /\ List.length (detail_of F coeffs) = 326%nat
  /\ last coeffs = Some (cD1 dwt (map of_int signal))
  /\ List.length (cD1 dwt (map of_int signal)) = 1283%nat
  /\ (List.length (detail_of F coeffs) < 1024)%nat.
Proof.
  intros Hn. cbv zeta. rewrite detail_of_wavedec, wavedec_3.
  assert (H1 : List.length (cD1 dwt (map of_int signal)) = 1283%nat).
  { unfold cD1. rewrite (proj2 (dwt_length _)), length_map, Hn. reflexivity. }
  assert (H3 : List.length (cD3 dwt (map of_int signal)) = 326%nat).
  { unfold cD3. rewrite (proj2 (dwt_length _)), (proj1 (dwt_length _)),
      (proj1 (dwt_length _)), length_map, Hn. reflexivity. }
  repeat split; try assumption. rewrite H3. lia.
Qed.

(** *** Extraction from a freshly embedded signal *)

Hypothesis idwt_length :
  forall a d, List.length a = List.length d ->
              List.length (idwt a d) = (2 * List.length a - 6)%nat.

Lemma length_modulate (strength : F) (bits : list bool) :
  forall detail,
    List.length (modulate F fabs fmax fneg strength bits detail) = List.length detail.
Proof.
  induction bits as [|b bits IH]; intros [|c detail]; cbn [modulate List.length]; auto.
Qed.

(** Synthesis gives back the length that analysis started from, or one
    sample more. *)
Lemma coeff_len_back (n : nat) :
  (2 * dwt_coeff_len n - 6 = n \/ 2 * dwt_coeff_len n - 6 = n + 1)%nat.
Proof.
  unfold dwt_coeff_len.
  pose proof (Nat.div_mod_eq (n + 7) 2) as H1.
  pose proof (Nat.mod_upper_bound (n + 7) 2 ltac:(lia)) as H2. lia.
Qed.

Lemma waverec_step (a d : list F) (ds : list (list F)) :
  (List.length a = List.length d \/ List.length a = List.length d + 1)%nat ->
  waverec_loop F idwt a (d :: ds)
  = waverec_loop F idwt (idwt (firstn (List.length d) a) d) ds
  /\ List.length (idwt (firstn (List.length d) a) d) = (2 * List.length d - 6)%nat.
Proof.
  intros H. split.
  - cbn [waverec_loop].
    destruct (Nat.eqb_spec (List.length a) (List.length d + 1)) as [E|E]; [reflexivity|].
    destruct (Nat.eqb_spec (List.length a) (List.length d)) as [E2|E2]; [|lia].
    now rewrite firstn_all2 by lia.
  - rewrite idwt_length; rewrite length_firstn; lia.
Qed.

(** Reconstruction from the coefficients of a signal, with the level-3
    detail replaced by a list of the same length, succeeds and is at
    least as long as the signal. *)
Lemma waverec_of_wavedec (x d3 : list F) :
  List.length d3 = List.length (cD3 dwt x) ->
  exists r, waverec F idwt [cA3 dwt x; d3; cD2 dwt x; cD1 dwt x] = Ok r
            /\ (List.length x <= List.length r)%nat.
Proof.
  intros Hd.
  assert (L1 : List.length (cD1 dwt x) = dwt_coeff_len (List.length x))
    by (unfold cD1; apply dwt_length).
  assert (L2 : List.length (cD2 dwt x) = dwt_coeff_len (dwt_coeff_len (List.length x)))
    by (unfold cD2; now rewrite (proj2 (dwt_length _)), (proj1 (dwt_length _))).
  assert (L3 : List.length (cD3 dwt x)
               = dwt_coeff_len (dwt_coeff_len (dwt_coeff_len (List.length x))))
    by (unfold cD3; now rewrite (proj2 (dwt_length _)), !(proj1 (dwt_length _))).
  assert (LA : List.length (cA3 dwt x) = List.length (cD3 dwt x))
    by (unfold cA3, cD3; now rewrite (proj1 (dwt_length _)), (proj2 (dwt_length _))).
  cbn [waverec].
  destruct (waverec_step (cA3 dwt x) d3 [cD2 dwt x; cD1 dwt x]) as [-> S1]; [lia|].
  destruct (waverec_step (idwt (firstn (List.length d3) (cA3 dwt x)) d3)
              (cD2 dwt x) [cD1 dwt x]) as [-> S2].
  { rewrite S1, Hd, L3, L2.
    destruct (coeff_len_back (dwt_coeff_len (dwt_coeff_len (List.length x)))); lia. }
  match goal with |- context [waverec_loop F idwt ?a [cD1 dwt x]] =>
    destruct (waverec_step a (cD1 dwt x) []) as [-> S3] end.
  { rewrite S2, L2, L1. destruct (coeff_len_back (dwt_coeff_len (List.length x))); lia. }
  eexists. split; [reflexivity|].
  rewrite S3, L1. destruct (coeff_len_back (List.length x)); lia.
Qed.

Lemma combine_firstn_left (A B : Type) (l : list A) (l' : list B) :
  combine l (firstn (List.length l) l') = combine l l'.
Proof.
  revert l'. induction l as [|x l IH]; intros [|y l']; cbn; try reflexivity.
  now rewrite IH.
Qed.

Lemma threshold_128 (matches : nat) :
  above_threshold (accuracy_of matches 128) = true <-> (109 <= matches)%nat.
Proof.
  unfold above_threshold, accuracy_of.
  change (Pos.of_nat 128) with 128%positive.
  destruct (Qlt_le_dec _ _) as [H|H]; rewrite Qred_correct in H;
    unfold Qlt, Qle in H; cbn in H; split; intros; try discriminate; try reflexivity; lia.
Qed.

Lemma accuracy_one_128 (matches : nat) :
  accuracy_of matches 128 = Some 1%Q <-> matches = 128%nat.
Proof.
  unfold accuracy_of. change (Pos.of_nat 128) with 128%positive. split.
  - intros H. injection H as H.
    pose proof (Qred_correct (Z.of_nat matches # 128)) as E.
    unfold Qeq in E. rewrite H in E. cbn in E. lia.
  - intros ->. reflexivity.
Qed.


End Pywt.

(** *** The library's transforms *)

Lemma length_windows (count : nat) :
  forall xe, List.length (Pywt.windows count xe) = count.
Proof.
  induction count as [|c IH]; intros xe; cbn [Pywt.windows List.length]; [reflexivity|].
  now rewrite IH.
Qed.

Lemma length_downsampling_convolution (f x : list PrimFloat.float) :
  List.length (Pywt.downsampling_convolution f x) = dwt_coeff_len (List.length x).
Proof.
  unfold Pywt.downsampling_convolution.
  rewrite length_map, length_combine, length_seq, length_windows. lia.
Qed.

Lemma pywt_dwt_length (x : list PrimFloat.float) :
  List.length (fst (Pywt.dwt x)) = dwt_coeff_len (List.length x)
  /\ List.length (snd (Pywt.dwt x)) = dwt_coeff_len (List.length x).
Proof.
  unfold Pywt.dwt. cbn [fst snd].
  now rewrite !length_downsampling_convolution.
Qed.

Lemma pywt_idwt_length (a d : list PrimFloat.float) :
  List.length a = List.length d ->
  List.length (Pywt.idwt a d) = (2 * List.length a - 6)%nat.
Proof.
  unfold Pywt.idwt. generalize Pywt.rec_lo Pywt.rec_hi. intros lo hi.
  revert d. induction a as [|a3 a' IH]; intros [|d3 d'] H; try discriminate; [reflexivity|].
  destruct a' as [|a2 [|a1 [|a0 a'']]], d' as [|d2 [|d1 [|d0 d'']]];
    try discriminate; try reflexivity.
  specialize (IH (d2 :: d1 :: d0 :: d'') ltac:(cbn [List.length] in *; lia)).
  cbn [Pywt.upsampling_convolution List.length] in IH |- *. lia.
Qed.

(** C10 at two 128-character hashes that differ after character 32. *)
Lemma dwt_reads_32_characters_witness :
  embed_dwt_watermark PrimFloat.float Pywt.of_int Pywt.to_int32 PrimFloat.abs
    Pywt.fmax PrimFloat.opp Pywt.dwt Pywt.idwt
    DWTSample.short_signal DWTSample.fingerprint Pywt.strength
  = embed_dwt_watermark PrimFloat.float Pywt.of_int Pywt.to_int32 PrimFloat.abs
      Pywt.fmax PrimFloat.opp Pywt.dwt Pywt.idwt
      DWTSample.short_signal DWTSample.other_fingerprint Pywt.strength
  /\ extract_dwt_watermark PrimFloat.float Pywt.of_int Pywt.nonneg Pywt.dwt
       DWTSample.short_signal DWTSample.fingerprint
     = extract_dwt_watermark PrimFloat.float Pywt.of_int Pywt.nonneg Pywt.dwt
         DWTSample.short_signal DWTSample.other_fingerprint
  /\ (forall bits, hash_bits DWTSample.fingerprint = Ok bits ->
                   (List.length bits <= 128)%nat).
Proof.
  apply (dwt_reads_32_characters PrimFloat.float Pywt.of_int Pywt.to_int32
           PrimFloat.abs Pywt.fmax PrimFloat.opp Pywt.nonneg Pywt.dwt Pywt.idwt
           DWTSample.short_signal DWTSample.fingerprint
           DWTSample.other_fingerprint Pywt.strength).
  vm_compute. reflexivity.
Defined.

(** C8 at the 2,560-sample signal of the worked example. *)
Lemma detail_coefficients_2560_witness :
  let coeffs := wavedec PrimFloat.float Pywt.dwt
                  (map Pywt.of_int DWTSample.signal2560) 3 in
  detail_of PrimFloat.float coeffs
  = cD3 Pywt.dwt (map Pywt.of_int DWTSample.signal2560)
  /\ List.length (detail_of PrimFloat.float coeffs) = 326%nat
  /\ last coeffs
     = Some (cD1 Pywt.dwt (map Pywt.of_int DWTSample.signal2560))
  /\ List.length (cD1 Pywt.dwt (map Pywt.of_int DWTSample.signal2560)) = 1283%nat
  /\ (List.length (detail_of PrimFloat.float coeffs) < 1024)%nat.
Proof.
  apply (detail_coefficients_2560 PrimFloat.float Pywt.of_int Pywt.dwt
           pywt_dwt_length DWTSample.signal2560).
  unfold DWTSample.signal2560. now rewrite length_map, length_seq.
Defined.



End DWTFacts.

(** ** Verification of the custody log *)

Module FMESSFacts.
Import PyStr FMESS.

Lemma scan_pairs_In check (x : issue) (rest : list ChainOfCustodyEntry) :
  forall (i : nat) (prev : ChainOfCustodyEntry),
    In x (scan_pairs check i prev rest) <->
    exists k a b,
      (prev :: rest) !! k = Some a /\ (prev :: rest) !! S k = Some b
      /\ In x (check (i + k)%nat a b).
Proof.
  induction rest as [|e r IH]; intros i prev; cbn [scan_pairs].
  - split; [intros []|]. intros (k & a & b & _ & Hb & _).
    destruct k; discriminate.
  - rewrite in_app_iff, IH. split.
    + intros [H | (k & a & b & Ha & Hb & Hx)].
      * exists 0%nat, prev, e. rewrite Nat.add_0_r. auto.
      * exists (S k), a, b. replace (i + S k)%nat with (S i + k)%nat by lia. auto.
    + intros (k & a & b & Ha & Hb & Hx). destruct k as [|k].
      * cbn in Ha, Hb. injection Ha as <-. injection Hb as <-.
        rewrite Nat.add_0_r in Hx. now left.
      * right. exists k, a, b. replace (S i + k)%nat with (i + S k)%nat by lia. auto.
Qed.

Lemma for_pairs_In check (x : issue) (es : list ChainOfCustodyEntry) :
  In x (for_pairs check es) <->
  exists k a b, es !! k = Some a /\ es !! S k = Some b /\ In x (check (S k) a b).
Proof.
  destruct es as [|e0 r]; cbn [for_pairs].
  - split; [intros []|]. intros (k & a & b & Ha & _). discriminate.
  - apply scan_pairs_In.
Qed.

Lemma scan_each_In check (x : issue) (es : list ChainOfCustodyEntry) :
  forall i : nat,
    In x (scan_each check i es) <->
    exists k a, es !! k = Some a /\ In x (check (i + k)%nat a).
Proof.
  induction es as [|e r IH]; intros i; cbn [scan_each].
  - split; [intros []|]. intros (k & a & Ha & _). discriminate.
  - rewrite in_app_iff, IH. split.
    + intros [H | (k & a & Ha & Hx)].
      * exists 0%nat, e. rewrite Nat.add_0_r. auto.
      * exists (S k), a. replace (i + S k)%nat with (S i + k)%nat by lia. auto.
    + intros (k & a & Ha & Hx). destruct k as [|k].
      * cbn in Ha. injection Ha as <-. rewrite Nat.add_0_r in Hx. now left.
      * right. exists k, a. replace (S i + k)%nat with (i + S k)%nat by lia. auto.
Qed.

Lemma check_order_index i a b x : In x (check_order i a b) -> x = OrderViolation i.
Proof.
  unfold check_order. destruct (str_lt _ _); cbn; [|tauto]. intros [<-|[]]. reflexivity.
Qed.

Lemma check_hash_index i a b x : In x (check_hash i a b) -> issue_index x = i.
Proof.
  unfold check_hash. destruct (hash_after a), (hash_before b); cbn [In]; try tauto.
  destruct (_ && _); cbn; [|tauto]. intros [<-|[]]. reflexivity.
Qed.

Lemma check_tamper_index i a x : In x (check_tamper i a) -> issue_index x = i.
Proof.
  unfold check_tamper. destruct (is_tampering_detected a); cbn; [|tauto].
  intros [<-|[]]. reflexivity.
Qed.

(** Every issue comes from one entry or from two neighbours. *)
Lemma issues_of_In (es : list ChainOfCustodyEntry) (x : issue) :
  In x (issues_of es) <->
  (exists k a b, es !! k = Some a /\ es !! S k = Some b
                 /\ (In x (check_order (S k) a b) \/ In x (check_hash (S k) a b)))
  \/ (exists k a, es !! k = Some a /\ In x (check_tamper k a)).
Proof.
  unfold issues_of. rewrite !in_app_iff, !for_pairs_In, scan_each_In. split.
  - intros [(k & a & b & ? & ? & ?) | [(k & a & b & ? & ? & ?) | (k & a & ? & ?)]].
    + left. exists k, a, b. auto.
    + left. exists k, a, b. auto.
    + right. exists k, a. auto.
  - intros [(k & a & b & ? & ? & [?|?]) | (k & a & ? & ?)].
    + left. exists k, a, b. auto.
    + right. left. exists k, a, b. auto.
    + right. right. exists k, a. auto.
Qed.

Lemma no_issue_iff (es : list ChainOfCustodyEntry) :
  issues_of es = [] <->
  (forall k a b, es !! k = Some a -> es !! S k = Some b ->
                 check_order (S k) a b = [] /\ check_hash (S k) a b = [])
  /\ (forall k a, es !! k = Some a -> is_tampering_detected a = false).
Proof.
  split.
  - intros H. split.
    + intros k a b Ha Hb. split.
      * destruct (check_order (S k) a b) as [|x l] eqn:E; [reflexivity|].
        assert (Hx : In x (issues_of es)).
        { apply issues_of_In. left. exists k, a, b. rewrite E. cbn. auto. }
        rewrite H in Hx. destruct Hx.
      * destruct (check_hash (S k) a b) as [|x l] eqn:E; [reflexivity|].
        assert (Hx : In x (issues_of es)).
        { apply issues_of_In. left. exists k, a, b. rewrite E. cbn. auto. }
        rewrite H in Hx. destruct Hx.
    + intros k a Ha. destruct (is_tampering_detected a) eqn:E; [|reflexivity].
      assert (Hx : In (Tampering k (action a)) (issues_of es)).
      { apply issues_of_In. right. exists k, a. unfold check_tamper. rewrite E. cbn. auto. }
      rewrite H in Hx. destruct Hx.
  - intros [Hp He]. destruct (issues_of es) as [|x l] eqn:E; [reflexivity|].
    assert (Hx : In x (issues_of es)) by (rewrite E; cbn; auto).
    apply issues_of_In in Hx as [(k & a & b & Ha & Hb & Hx) | (k & a & Ha & Hx)].
    + destruct (Hp k a b Ha Hb) as [H1 H2]. rewrite H1, H2 in Hx. destruct Hx as [[]|[]].
    + unfold check_tamper in Hx. rewrite (He k a Ha) in Hx. destruct Hx.
Qed.

Lemma verify_chain_integrity_unfold (log : list line) (id : string) :
  verify_chain_integrity log id =
  match get_entries_for_evidence log id with
  | [] => (false, ["No chain of custody entries found"])
  | e :: r =>
      (match issues_of (e :: r) with [] => true | _ => false end,
       map render (issues_of (e :: r)))
  end.
Proof.
  unfold verify_chain_integrity. destruct (get_entries_for_evidence log id); [reflexivity|].
  rewrite length_map. destruct (issues_of _); reflexivity.
Qed.

Lemma check_order_fields i a b a' b' :
  timestamp a' = timestamp a -> timestamp b' = timestamp b ->
  check_order i a' b' = check_order i a b.
Proof. unfold check_order. now intros -> ->. Qed.

Lemma check_hash_fields i a b a' b' :
  hash_after a' = hash_after a -> hash_before b' = hash_before b ->
  check_hash i a' b' = check_hash i a b.
Proof. unfold check_hash. now intros -> ->. Qed.

Lemma tamper_fields a a' :
  same_checked_fields a a' -> is_tampering_detected a' = is_tampering_detected a.
Proof. unfold is_tampering_detected. now intros (_ & -> & -> & ->). Qed.




End FMESSFacts.
